(** * Fair marketplace distribution and peg-currency conversion

    A shallow embedding of the four distribution strategies of
    [FairMarketplace] (marketplace.js) and of the currency converter of
    [PriceConversionSystem] (price-conversion.js), with the properties the
    specification states about them.

    Conventions of the embedding.
    - JavaScript integers (page, limit, seed, timestamps, counts) are [Z].
      A parameter that may be [null] is an [option Z]; [x || d] is [js_or].
    - Ratings are doubles; a finite double is a rational, and the store
      compares doubles by value, so a rating is a [Q] compared with
      [Qcompare].
    - The collection is the list of its documents in natural order.  An
      aggregation either fails with the store's error or returns documents:
      the [result] monad.
    - The store's integer arithmetic ([$add], [$multiply], [$mod] on 32-
      and 64-bit integers, widened on overflow) is exact and is [Z]
      arithmetic here.  A seed outside 32 bits reaches the store as a
      double, whose sums and products the store rounds: the properties that
      depend on the value of a seeded key are stated for the seeds on which
      the arithmetic is exact.
    - A [$sort] is one sort among those the store may perform: a property
      of several queries together is stated where the documents have no
      tie, so that the sorted order is the same for every sort.
    - The store's [$rand] and the clock [Date.now()] are inputs: an oracle
      indexed by the position of the document in the stream, and a [Z]. *)

From Stdlib Require Import ZArith QArith Qabs Qround Bool List Ascii String Lia.
From Stdlib Require Import Permutation Sorted.
From Stdlib Require Import Uint63 Floats.PrimFloat Floats.FloatOps Floats.SpecFloat.
Import ListNotations.

Local Open Scope string_scope.
Local Open Scope list_scope.
Local Open Scope Z_scope.

(** ** Errors and the result monad *)

(** What the store answers when it refuses a pipeline or an expression. *)
Inductive StoreError : Type :=
| ConversionFailure (input : string)   (* $toInt on a string that is no int *)
| InvalidSubstrRange (input : string)  (* $substr starting inside a character *)
| InvalidSkip (n : Z)                  (* $skip with a negative argument *)
| InvalidLimit (n : Z).                (* $limit with a non-positive argument *)

Inductive result (A : Type) : Type :=
| Ok (a : A)
| Err (e : StoreError).
Arguments Ok {A} a.
Arguments Err {A} e.

Definition bind {A B : Type} (r : result A) (k : A -> result B) : result B :=
  match r with
  | Ok a => k a
  | Err e => Err e
  end.

Declare Scope result_scope.
Delimit Scope result_scope with result.
Notation "x <- r ;; k" := (bind r (fun x => k))
  (at level 61, r at next level, right associativity) : result_scope.
Notation "r ;;; k" := (bind r (fun _ => k))
  (at level 61, right associativity) : result_scope.
Local Open Scope result_scope.

Fixpoint mapM {A B : Type} (f : A -> result B) (l : list A) : result (list B) :=
  match l with
  | [] => Ok []
  | x :: xs => y <- f x ;; ys <- mapM f xs ;; Ok (y :: ys)
  end.

Definition is_ok {A : Type} (r : result A) : bool :=
  match r with Ok _ => true | Err _ => false end.

(** ** JavaScript helpers *)

Module Js.

(** [x || d] on a number that may be [null]: [null] and [0] are falsy. *)
Definition js_or (x : option Z) (d : Z) : Z :=
  match x with
  | Some v => if v =? 0 then d else v
  | None => d
  end.

(** [Math.max(...xs)]: [-Infinity] on the empty list. *)
Inductive extnum : Type :=
| NegInfinity
| Fin (n : Z).

Definition math_max (xs : list Z) : extnum :=
  fold_left (fun acc x =>
               match acc with
               | NegInfinity => Fin x
               | Fin m => Fin (Z.max m x)
               end) xs NegInfinity.

(** The values [0, 1, ...] a counter takes in
    [for (let i = 0; i < bound; i++)]. *)
Definition for_range (bound : extnum) : list nat :=
  match bound with
  | NegInfinity => []
  | Fin m => seq 0 (Z.to_nat m)
  end.

(** [Array.prototype.slice(start, end)]: a negative index counts from the
    end of the array, and both are clamped to the array. *)
Definition relative_index (len k : Z) : Z :=
  if k <? 0 then Z.max (len + k) 0 else Z.min k len.

Definition slice {A : Type} (l : list A) (start stop : Z) : list A :=
  let len := Z.of_nat (List.length l) in
  let from := relative_index len start in
  let to := relative_index len stop in
  firstn (Z.to_nat (to - from)) (skipn (Z.to_nat from) l).

(** [Math.ceil(a / b)] on integers, for a divisor other than 0 (the
    quotient of two integers below 2^53 is never rounded across an
    integer). *)
Definition ceil_div (a b : Z) : Z := - ((- a) / b).

(** [Math.floor(a / b)] on integers, for a divisor other than 0. *)
Definition floor_div (a b : Z) : Z := a / b.

End Js.

(** ** The document store's expression and stage semantics *)

Module Mongo.

(** A byte of the form 10xxxxxx continues a UTF-8 character. *)
Definition is_continuation (c : ascii) : bool :=
  let n := nat_of_ascii c in
  (Nat.leb 128 n && Nat.ltb n 192)%bool.

(** [$strLenCP]: the number of code points of a UTF-8 string. *)
Fixpoint strLenCP (s : string) : Z :=
  match s with
  | EmptyString => 0
  | String c r => (if is_continuation c then 0 else 1) + strLenCP r
  end.

Fixpoint drop (n : nat) (s : string) : string :=
  match n, s with
  | O, _ => s
  | S n', EmptyString => EmptyString
  | S n', String _ r => drop n' r
  end.

(** [$substr: [s, start, -1]] ([$substrBytes]): the bytes of [s] from
    byte [start] to the end; empty when [start] is past the end; refused
    when [start] falls inside a character. *)
Definition substr_from (s : string) (start : nat) : result string :=
  match drop start s with
  | String c r =>
      if is_continuation c then Err (InvalidSubstrRange s)
      else Ok (String c r)
  | EmptyString => Ok EmptyString
  end.

Definition digit_of (c : ascii) : option Z :=
  let n := Z.of_nat (nat_of_ascii c) in
  if (48 <=? n) && (n <=? 57) then Some (n - 48) else None.

Fixpoint parse_digits (s : string) (acc : Z) : option Z :=
  match s with
  | EmptyString => Some acc
  | String c r =>
      match digit_of c with
      | Some d => parse_digits r (10 * acc + d)
      | None => None
      end
  end.

(** A base-10 integer: an optional sign and at least one digit. *)
Definition parse_int (s : string) : option Z :=
  match s with
  | EmptyString => None
  | String "-" EmptyString => None
  | String "+" EmptyString => None
  | String "-" r => option_map Z.opp (parse_digits r 0)
  | String "+" r => parse_digits r 0
  | _ => parse_digits s 0
  end.

Definition in_int32 (v : Z) : bool :=
  (- 2147483648 <=? v) && (v <=? 2147483647).

(** [$toInt] on a string: fails unless the string is a base-10 integer
    that fits 32 bits. *)
Definition toInt (s : string) : result Z :=
  match parse_int s with
  | Some v => if in_int32 v then Ok v else Err (ConversionFailure s)
  | None => Err (ConversionFailure s)
  end.

(** [$mod]: the remainder has the sign of the dividend. *)
Definition mod_ (a b : Z) : Z := Z.rem a b.

(** [$sort]: modelled by a stable insertion sort; the properties proved
    below of one query (ordered, same documents) hold of any sort, and the
    properties that join the results of several queries are stated where no
    two documents tie, so that every sort gives the same order. *)
Fixpoint insert_by {A : Type} (leb : A -> A -> bool) (x : A) (l : list A)
  : list A :=
  match l with
  | [] => [x]
  | y :: rest =>
      if leb x y then x :: l else y :: insert_by leb x rest
  end.

Fixpoint sort_by {A : Type} (leb : A -> A -> bool) (l : list A) : list A :=
  match l with
  | [] => []
  | x :: xs => insert_by leb x (sort_by leb xs)
  end.

(** [$skip] accepts a non-negative count, [$limit] a positive one; the
    store checks both when it parses the pipeline, before reading any
    document. *)
Definition check_skip (n : Z) : result unit :=
  if n <? 0 then Err (InvalidSkip n) else Ok tt.

Definition check_limit (n : Z) : result unit :=
  if n <=? 0 then Err (InvalidLimit n) else Ok tt.

Definition stage_skip {A : Type} (n : Z) (docs : list A) : list A :=
  skipn (Z.to_nat n) docs.

Definition stage_limit {A : Type} (n : Z) (docs : list A) : list A :=
  firstn (Z.to_nat n) docs.

(** [$slice: [array, n]]: the first [n] elements, or the last [-n] when
    [n] is negative. *)
Definition slice_n {A : Type} (l : list A) (n : Z) : list A :=
  if 0 <=? n then firstn (Z.to_nat n) l
  else skipn (List.length l - Z.to_nat (- n)) l.

End Mongo.

(** ** Configuration (config.js) *)

Record Config : Type := {
  defaultPageSize : Z;
  maxPageSize : Z;
  seedUpdateIntervalMinutes : Z;
  maxSellersPerPage : Z;
  defaultMaxOffersPerSeller : Z;
  maxMaxOffersPerSeller : Z
}.

Definition config : Config := {|
  defaultPageSize := 10;
  maxPageSize := 100;
  seedUpdateIntervalMinutes := 1;
  maxSellersPerPage := 50;
  defaultMaxOffersPerSeller := 2;
  maxMaxOffersPerSeller := 10
|}.

(** ** Documents *)

(** An offer of the [offers] collection.  [sellerHash] and [seedUsed] are
    the helper fields the hash strategy adds with [$addFields] and leaves in
    its output; a stored offer has neither. *)
Record Offer : Type := {
  _id : string;
  title : string;
  gameCategory : string;
  sellerId : string;
  price : Q;
  description : string;
  rating : Q;
  stock : Z;
  createdAt : Z;
  tags : list string;
  sellerHash : option Z;
  seedUsed : option Z
}.

(** The output document of a [$group] on [sellerId]: the key, the documents
    pushed in input order ([offers] in the round-robin pipeline, [topOffers]
    in the quota pipeline) and the value of the [$first] accumulator
    ([sellerOrder], respectively [randomOrder]). *)
Record Group (K : Type) : Type := {
  group_id : string;
  members : list Offer;
  order_key : K
}.
Arguments group_id {K} g.
Arguments members {K} g.
Arguments order_key {K} g.

Record Pagination : Type := {
  page : Z;
  limit : Z;
  total : Z;
  totalPages : Z;
  hasNextPage : bool;
  hasPrevPage : bool
}.

(** What every strategy returns; [seed] is present for the two seeded
    strategies, [maxPerSeller] for the quota strategy. *)
Record SearchResult : Type := {
  offers : list Offer;
  pagination : Pagination;
  seed : option Z;
  maxPerSeller : option Z;
  method : string
}.

(** ** FairMarketplace (marketplace.js) *)

Module FairMarketplace.
Import Js Mongo.

(** [{ $sort: { rating: -1, createdAt: -1 } }] *)
Definition quality_cmp (a b : Offer) : comparison :=
  match Qcompare (rating b) (rating a) with
  | Eq => Z.compare (createdAt b) (createdAt a)
  | c => c
  end.

Definition not_gt (c : comparison) : bool :=
  match c with Gt => false | _ => true end.

Definition quality_leb (a b : Offer) : bool := not_gt (quality_cmp a b).

(** A missing field sorts before every number. *)
Definition field_cmp (a b : option Z) : comparison :=
  match a, b with
  | None, None => Eq
  | None, Some _ => Lt
  | Some _, None => Gt
  | Some x, Some y => Z.compare x y
  end.

(** [{ $sort: { sellerHash: 1, rating: -1, createdAt: -1 } }] *)
Definition hash_cmp (a b : Offer) : comparison :=
  match field_cmp (sellerHash a) (sellerHash b) with
  | Eq => quality_cmp a b
  | c => c
  end.

Definition hash_leb (a b : Offer) : bool := not_gt (hash_cmp a b).

(** The pagination block, written out alike in the four methods. *)
Definition paginationOf (page limit totalCount : Z) : Pagination := {|
  page := page;
  limit := limit;
  total := totalCount;
  totalPages := ceil_div totalCount limit;
  hasNextPage := page * limit <? totalCount;
  hasPrevPage := 1 <? page
|}.

(** [$group] by [sellerId]: one group per seller, here in the order of the
    sellers' first documents; a group holds the seller's documents in
    input order and the key computed on its first document. *)
Fixpoint first_docs {K : Type} (docs : list (Offer * K)) : list (Offer * K) :=
  match docs with
  | [] => []
  | d :: ds =>
      d :: filter (fun d' => negb (sellerId (fst d') =? sellerId (fst d))%string)
             (first_docs ds)
  end.

Definition stage_group {K : Type} (docs : list (Offer * K)) : list (Group K) :=
  map (fun d =>
         {| group_id := sellerId (fst d);
            members :=
              map fst (filter (fun d' => (sellerId (fst d') =? sellerId (fst d))%string)
                         docs);
            order_key := snd d |})
    (first_docs docs).

(** The documents of a stream with the draw [$rand] made at each. *)
Definition with_draws {K : Type} (rnd : nat -> K) (docs : list Offer)
  : list (Offer * K) :=
  map (fun p => (snd p, rnd (fst p))) (combine (seq 0 (List.length docs)) docs).

Section Methods.

(** [this.config] and the documents of [this.collection]. *)
Variable cfg : Config.
Variable collection : list Offer.

(** [{ $match: { gameCategory } }] *)
Definition stage_match (category : string) : list Offer :=
  filter (fun o => (gameCategory o =? category)%string) collection.

(** [this.collection.countDocuments({ gameCategory })] *)
Definition countDocuments (category : string) : Z :=
  Z.of_nat (List.length (stage_match category)).

(** The seed both seeded methods compute:
    [randomSeed || Math.floor(Date.now() / seedInterval)]. *)
Definition seedInterval : Z := seedUpdateIntervalMinutes cfg * 60000.

Definition seedOf (now : Z) (randomSeed : option Z) : Z :=
  js_or randomSeed (floor_div now seedInterval).

(** *** Method 1: hash-based round-robin *)

(** The string handed to [$toInt]: the identifier from byte 7 on when it
    has more than 7 code points, the constant ["1"] otherwise. *)
Definition hashSuffix (id : string) : result string :=
  if 7 <? strLenCP id then substr_from id 7 else Ok "1".

(** The bucket, in the integer arithmetic of the store: a seed within 32
    bits is sent as an integer, and sums and product are then exact as long
    as they fit 64 bits, which they do for a seed between -2^30 and 2^30.
    The properties below that depend on the value of the bucket are stated
    for such seeds; a seed outside 32 bits is sent as a double and the
    store then rounds. *)
Definition sellerHashOf (seed : Z) (o : Offer) : result Z :=
  s <- hashSuffix (sellerId o) ;;
  n <- toInt s ;;
  Ok (mod_ ((n + seed) * (seed + 37)) 10000).

Definition addHashFields (seed : Z) (o : Offer) : result Offer :=
  h <- sellerHashOf seed o ;;
  Ok {| _id := _id o; title := title o; gameCategory := gameCategory o;
        sellerId := sellerId o; price := price o;
        description := description o; rating := rating o;
        stock := stock o; createdAt := createdAt o; tags := tags o;
        sellerHash := Some h; seedUsed := Some seed |}.

(** The pipeline up to and including its [$sort]. *)
Definition hashOrdered (category : string) (seed : Z) : result (list Offer) :=
  docs <- mapM (addHashFields seed) (stage_match category) ;;
  Ok (sort_by hash_leb docs).

Definition hashPipeline (category : string) (seed skip limit : Z)
  : result (list Offer) :=
  check_skip skip ;;;
  check_limit limit ;;;
  docs <- hashOrdered category seed ;;
  Ok (stage_limit limit (stage_skip skip docs)).

Definition getOffersHashRoundRobin (now : Z) (category : string) (page : Z)
  (limit randomSeed : option Z) : result SearchResult :=
  let limit := js_or limit (defaultPageSize cfg) in
  let skip := (page - 1) * limit in
  let seed := seedOf now randomSeed in
  offers <- hashPipeline category seed skip limit ;;
  let totalCount := countDocuments category in
  Ok {| offers := offers;
        pagination := paginationOf page limit totalCount;
        seed := Some seed;
        maxPerSeller := None;
        method := "Hash-Based Round-Robin" |}.

(** *** Method 2: true round-robin *)

(** The order key of a seller, exact in the store for a seed within 32
    bits (integer arithmetic) and for a greater seed as long as the sum is
    below 2^53 (a double holds it); beyond, the store rounds the sum.  The
    properties below that depend on the value of the key are stated for
    seeds between -2^52 and 2^52. *)
Definition sellerOrderOf (seed : Z) (o : Offer) : result Z :=
  s <- substr_from (sellerId o) 7 ;;
  n <- toInt s ;;
  Ok (mod_ (n + seed) 1000).

(** The aggregation: [$match], [$sort], [$group], [$sort]. *)
Definition sellerGroups (category : string) (seed : Z)
  : result (list (Group Z)) :=
  let docs := sort_by quality_leb (stage_match category) in
  keyed <- mapM (fun o => k <- sellerOrderOf seed o ;; Ok (o, k)) docs ;;
  Ok (sort_by (fun g h => order_key g <=? order_key h) (stage_group keyed)).

Definition maxOffersPerSeller (groups : list (Group Z)) : extnum :=
  math_max (map (fun g => Z.of_nat (List.length (members g))) groups).

(** The two nested loops pushing onto [roundRobinOffers]; an offer is an
    object, hence truthy whenever the index exists. *)
Definition pushRound (groups : list (Group Z)) (acc : list Offer)
  (round : nat) : list Offer :=
  fold_left (fun acc g =>
               match nth_error (members g) round with
               | Some o => acc ++ [o]
               | None => acc
               end) groups acc.

Definition roundRobinOffers (groups : list (Group Z)) : list Offer :=
  fold_left (pushRound groups) (for_range (maxOffersPerSeller groups)) [].

Definition getOffersTrueRoundRobin (now : Z) (category : string) (page : Z)
  (limit randomSeed : option Z) : result SearchResult :=
  let limit := js_or limit (defaultPageSize cfg) in
  let skip := (page - 1) * limit in
  let seed := seedOf now randomSeed in
  groups <- sellerGroups category seed ;;
  let paginatedOffers := slice (roundRobinOffers groups) skip (skip + limit) in
  let totalCount := countDocuments category in
  Ok {| offers := paginatedOffers;
        pagination := paginationOf page limit totalCount;
        seed := Some seed;
        maxPerSeller := None;
        method := "True Round-Robin (JavaScript)" |}.

End Methods.

(** A candidate of the weighted pipeline with its helper fields. *)
Record Scored (num : Type) : Type := {
  doc : Offer;
  sellerOfferCount : Z;
  randomScore : num;
  weightedScore : num
}.
Arguments doc {num} s.
Arguments sellerOfferCount {num} s.
Arguments randomScore {num} s.
Arguments weightedScore {num} s.

Section RandomisedMethods.

Variable cfg : Config.
Variable collection : list Offer.

(** The store's double arithmetic and comparison, kept abstract: the
    two randomised pipelines only add, multiply, divide and compare. *)
Variable num : Type.
Variable num_of_Z : Z -> num.
Variable num_add num_mul num_div : num -> num -> num.
Variable num_leb : num -> num -> bool.

(** *** Method 3: weighted random *)

(** The [$lookup] with [$count]: the offers of the collection with the
    seller and the category of the current one, which is among them. *)
Definition sellerStatsCount (o : Offer) : Z :=
  Z.of_nat (List.length
    (filter (fun d => ((sellerId d =? sellerId o)%string
                       && (gameCategory d =? gameCategory o)%string)%bool)
       collection)).

Definition score (r : num) (count : Z) : num :=
  num_add (num_mul r (num_of_Z 100))
          (num_div (num_of_Z 100) (num_of_Z (count + 1))).

Definition addScores (d : Offer * num) : Scored num :=
  let count := sellerStatsCount (fst d) in
  {| doc := fst d;
     sellerOfferCount := count;
     randomScore := snd d;
     weightedScore := score (snd d) count |}.

(** [{ $sort: { weightedScore: -1 } }] *)
Definition score_geb (a b : Scored num) : bool :=
  num_leb (weightedScore b) (weightedScore a).

(** The pipeline up to and including its [$sort]. *)
Definition weightedOrdered (rnd : nat -> num) (category : string)
  : list (Scored num) :=
  sort_by score_geb
    (map addScores (with_draws rnd (stage_match collection category))).

Definition weightedPipeline (rnd : nat -> num) (category : string)
  (skip limit : Z) : result (list Offer) :=
  check_skip skip ;;;
  check_limit limit ;;;
  Ok (map doc (stage_limit limit (stage_skip skip (weightedOrdered rnd category)))).

Definition getOffersWeightedRandom (rnd : nat -> num) (category : string)
  (page : Z) (limit : option Z) : result SearchResult :=
  let limit := js_or limit (defaultPageSize cfg) in
  let skip := (page - 1) * limit in
  offers <- weightedPipeline rnd category skip limit ;;
  let totalCount := countDocuments collection category in
  Ok {| offers := offers;
        pagination := paginationOf page limit totalCount;
        seed := None;
        maxPerSeller := None;
        method := "Weighted Random Distribution" |}.

(** *** Method 4: quota-based *)

(** [{ $project: { topOffers: { $slice: ["$topOffers", maxPerSeller] } } }] *)
Definition projectTop (maxPerSeller : Z) (g : Group num) : Group num :=
  {| group_id := group_id g;
     members := slice_n (members g) maxPerSeller;
     order_key := order_key g |}.

(** The pipeline up to and including [$unwind] and [$replaceRoot]. *)
Definition quotaFlattened (rnd : nat -> num) (category : string)
  (maxPerSeller : Z) : list Offer :=
  let docs := sort_by quality_leb (stage_match collection category) in
  let groups := stage_group (with_draws rnd docs) in
  let capped := map (projectTop maxPerSeller) groups in
  let ordered := sort_by (fun g h => num_leb (order_key g) (order_key h)) capped in
  flat_map members ordered.

Definition quotaPipeline (rnd : nat -> num) (category : string)
  (maxPerSeller skip limit : Z) : result (list Offer) :=
  check_skip skip ;;;
  check_limit limit ;;;
  Ok (stage_limit limit (stage_skip skip (quotaFlattened rnd category maxPerSeller))).

(** The quota after the default and the clamp of the method's head. *)
Definition quotaOf (maxPerSeller : option Z) : Z :=
  let maxPerSeller := js_or maxPerSeller (defaultMaxOffersPerSeller cfg) in
  if maxMaxOffersPerSeller cfg <? maxPerSeller
  then maxMaxOffersPerSeller cfg
  else maxPerSeller.

Definition getOffersQuotaBased (rnd : nat -> num) (category : string)
  (page : Z) (limit maxPerSeller : option Z) : result SearchResult :=
  let limit := js_or limit (defaultPageSize cfg) in
  let maxPerSeller := quotaOf maxPerSeller in
  let skip := (page - 1) * limit in
  offers <- quotaPipeline rnd category maxPerSeller skip limit ;;
  let totalCount := countDocuments collection category in
  Ok {| offers := offers;
        pagination := paginationOf page limit totalCount;
        seed := None;
        maxPerSeller := Some maxPerSeller;
        method := "Quota-Based Distribution" |}.

End RandomisedMethods.

End FairMarketplace.

(** ** PriceConversionSystem (price-conversion.js) *)

Module PriceConversionSystem.

(** Prices and rates are JavaScript numbers: binary64 floats. *)

(** The exact value of a finite double [m * 2^e]. *)
Definition value_of (m : positive) (e : Z) : Q :=
  if 0 <=? e then inject_Z (Z.pos m * 2 ^ e)
  else Qmake (Z.pos m) (Z.to_pos (2 ^ (- e))).

Definition exact_value (x : float) : option Q :=
  match Prim2SF x with
  | S754_zero _ => Some 0%Q
  | S754_finite s m e => Some (if s then Qopp (value_of m e) else value_of m e)
  | _ => None
  end.

(** The double nearest to [n / 10^k]: [parseFloat] of a decimal numeral
    with [k] fractional digits. *)
Definition nearest_double (negative : bool) (n : Z) (k : nat) : float :=
  match n with
  | Zpos p =>
      SF2Prim (SFdiv prec emax (S754_finite negative p 0)
                 (S754_finite false (Z.to_pos (10 ^ Z.of_nat k)) 0))
  | _ => if negative then neg_zero else zero
  end.

(** The string [x.toFixed(4)]: a sign and the digits of the integer [n]
    with [n / 10^4] nearest to [|x|], or the text of a non-finite [x]. *)
Inductive numeral : Type :=
| Fixed (negative : bool) (n : Z)
| Text (x : float).

(** "Let n be an integer for which n / 10^4 - x is as close to zero as
    possible; if there are two such n, pick the larger": the floor of
    [x * 10^4 + 1/2], computed on the exact value [m * 2^e] of [x]. *)
Definition fixed_digits (m : positive) (e : Z) : Z :=
  if 0 <=? e then Z.pos m * 2 ^ e * 10000
  else (2 * (Z.pos m * 10000) + 2 ^ (- e)) / (2 * 2 ^ (- e)).

Definition toFixed4 (x : float) : numeral :=
  match Prim2SF x with
  | S754_zero _ => Fixed false 0
  | S754_finite s m e => Fixed s (fixed_digits m e)
  | _ => Text x
  end.

Definition parseFloat (s : numeral) : float :=
  match s with
  | Fixed negative n => nearest_double negative n 4
  | Text x => x
  end.

(** [!rate] on a number: [0], [-0] and [NaN] are falsy. *)
Definition falsy (x : float) : bool :=
  (PrimFloat.eqb x zero || negb (PrimFloat.eqb x x))%bool.

(** [this.exchangeRatesCache]: currency code to rate; the entry set last
    for a code comes first. *)
Definition Cache : Type := list (string * float).

Fixpoint cache_get (cache : Cache) (currency : string) : option float :=
  match cache with
  | [] => None
  | (c, r) :: rest => if (c =? currency)%string then Some r else cache_get rest currency
  end.

(** The rates [initializeExchangeRates] stores, as
    [refreshExchangeRateCache] reads them back with [parseFloat]. *)
Definition initialCache : Cache :=
  [ ("PHP", nearest_double false 178 4);
    ("IDR", nearest_double false 635 7);
    ("MYR", nearest_double false 2247 4);
    ("USD", nearest_double false 10000 4) ].

Inductive conversion : Type :=
| Converted (x : float)
| RateNotFound (currency : string).

Definition convertToUSD (cache : Cache) (price : float) (fromCurrency : string)
  : conversion :=
  if (fromCurrency =? "USD")%string then Converted price
  else
    match cache_get cache fromCurrency with
    | Some rate =>
        if falsy rate then RateNotFound fromCurrency
        else Converted (parseFloat (toFixed4 (PrimFloat.mul price rate)))
    | None => RateNotFound fromCurrency
    end.

Definition convertFromUSD (cache : Cache) (usdPrice : float) (toCurrency : string)
  : conversion :=
  if (toCurrency =? "USD")%string then Converted usdPrice
  else
    match cache_get cache toCurrency with
    | Some toUSDRate =>
        if falsy toUSDRate then RateNotFound toCurrency
        else
          let fromUSDRate := PrimFloat.div one toUSDRate in
          Converted (parseFloat (toFixed4 (PrimFloat.mul usdPrice fromUSDRate)))
    | None => RateNotFound toCurrency
    end.

(** [convertFromUSD(convertToUSD(a, c), c)] *)
Definition roundTrip (cache : Cache) (a : float) (currency : string) : conversion :=
  match convertToUSD cache a currency with
  | Converted usd => convertFromUSD cache usd currency
  | RateNotFound c => RateNotFound c
  end.

End PriceConversionSystem.


(** ** Vocabulary of the properties *)

Module Props.
Import Js Mongo FairMarketplace.

(** Every seller identifier of the category converts in the hash
    pipeline, respectively in the round-robin pipeline; otherwise the
    store fails the aggregation. *)
Definition hash_ids_ok (collection : list Offer) (category : string) : bool :=
  forallb (fun o => is_ok (s <- hashSuffix (sellerId o) ;; toInt s))
    (stage_match collection category).

Definition rr_ids_ok (collection : list Offer) (category : string) : bool :=
  forallb (fun o => is_ok (s <- substr_from (sellerId o) 7 ;; toInt s))
    (stage_match collection category).


(** The element a group contributes to a round, if it has one. *)
Definition pick (round : nat) (g : Group Z) : list Offer :=
  match nth_error (members g) round with
  | Some o => [o]
  | None => []
  end.

(** The interleaving as the specification words it: for each round from 0
    to the largest group size minus 1, each group's element at that index,
    in group order. *)
Definition interleave (groups : list (Group Z)) : list Offer :=
  flat_map (fun round => flat_map (pick round) groups)
    (seq 0 (list_max (map (fun g => List.length (members g)) groups))).

(** A group as [$group] forms it: not empty, and of one seller. *)
Definition well_grouped {K : Type} (g : Group K) : Prop :=
  members g <> [] /\ Forall (fun o => sellerId o = group_id g) (members g).

(** The number of offers of a seller in a sequence. *)
Definition count_seller (s : string) (l : list Offer) : nat :=
  List.length (filter (fun o => (sellerId o =? s)%string) l).

End Props.

(** ** Sample data *)

Module Sample.

Definition offer (id category seller : string) (rating : Q) (createdAt : Z)
  : Offer :=
  {| _id := id; title := id; gameCategory := category; sellerId := seller;
     price := 10; description := id; rating := rating; stock := 1;
     createdAt := createdAt; tags := ["pvp"];
     sellerHash := None; seedUsed := None |}.

(** Category RPG with three sellers holding 5, 2 and 2 offers, and one
    offer of another category. *)
Definition rpg : list Offer :=
  [ offer "offer_1" "RPG" "seller_1" (45 # 10) 100;
    offer "offer_2" "RPG" "seller_2" (30 # 10) 101;
    offer "offer_3" "RPG" "seller_1" (12 # 10) 102;
    offer "offer_4" "FPS" "seller_2" (50 # 10) 103;
    offer "offer_5" "RPG" "seller_3" (49 # 10) 104;
    offer "offer_6" "RPG" "seller_1" (45 # 10) 105;
    offer "offer_7" "RPG" "seller_1" (20 # 10) 106;
    offer "offer_8" "RPG" "seller_2" (41 # 10) 107;
    offer "offer_9" "RPG" "seller_3" (05 # 10) 108;
    offer "offer_10" "RPG" "seller_1" (33 # 10) 109 ].

(** A draw of [$rand] per position, as a rational in [0, 1). *)
Definition draws (i : nat) : Q := Qmake (Z.of_nat ((7 * i + 3) mod 10)) 10.

End Sample.

(** ** Further vocabulary *)

Module Pages.


(** A returned document stands for a stored offer of the category: it has
    the category, and the identifier, seller, rating and creation time of
    an offer of the collection. *)
Definition from_category (collection : list Offer) (category : string) (d : Offer)
  : Prop :=
  gameCategory d = category
  /\ exists o, In o collection /\ _id o = _id d /\ sellerId o = sellerId d
               /\ rating o = rating d /\ createdAt o = createdAt d.




(** The page numbers 1, 2, ..., n. *)
Definition page_numbers (n : Z) : list Z :=
  map (fun i => Z.of_nat i + 1) (seq 0 (Z.to_nat n)).

End Pages.

(** ** Seeding and statistics (marketplace.js) *)

Module Seeding.
Import Js Mongo FairMarketplace.

(** The seeding block of config.js. *)
Record SeedingConfig : Type := {
  defaultOfferCount : Z;
  defaultSellerCount : Z;
  gameCategories : list string
}.

Definition seeding : SeedingConfig := {|
  defaultOfferCount := 100;
  defaultSellerCount := 15;
  gameCategories :=
    ["RPG"; "FPS"; "Strategy"; "Sports"; "Racing"; "Adventure"; "Simulation";
     "Puzzle"]
|}.

(** The text of an integer in a template literal: its decimal digits, after
    a minus sign when it is negative. *)
Definition digit_char (d : Z) : ascii := ascii_of_nat (48 + Z.to_nat d).

Fixpoint digits_fuel (fuel : nat) (n : Z) (acc : string) : string :=
  match fuel with
  | O => acc
  | S fuel' =>
      let acc' := String (digit_char (n mod 10)) acc in
      if n <? 10 then acc' else digits_fuel fuel' (n / 10) acc'
  end.

Definition digits (n : Z) : string :=
  digits_fuel (S (Z.to_nat (Z.log2 n))) n EmptyString.

Definition number_to_string (n : Z) : string :=
  if n <? 0 then String "-" (digits (- n)) else digits n.

(** What faker draws for one offer: positions in the arrays of categories
    and of sellers, and the values of the other fields. *)
Record Draw : Type := {
  draw_category : nat;
  draw_seller : nat;
  draw_title : string;
  draw_price : Q;
  draw_description : string;
  draw_rating : Q;
  draw_stock : Z;
  draw_createdAt : Z;
  draw_tags : list string
}.

(** [faker.helpers.arrayElement]: the element at the drawn position; faker
    8 throws on an empty array. *)
Definition arrayElement {A : Type} (arr : list A) (pick : nat) : option A :=
  nth_error arr (pick mod List.length arr).

(** The names [`seller_${i + 1}`] for [i] from 0 below [numSellers]. *)
Definition sellerNames (numSellers : Z) : list string :=
  map (fun i => ("seller_" ++ number_to_string (Z.of_nat i + 1))%string)
    (seq 0 (Z.to_nat numSellers)).

(** [Array.from({ length: numSellers }, (_, i) => `seller_${i + 1}`)]: a
    negative length counts as 0, and a length of 2^32 or more is refused
    with a RangeError. *)
Definition sellers (numSellers : Z) : option (list string) :=
  if 4294967296 <=? numSellers then None else Some (sellerNames numSellers).

Definition seedOffer (cats sellerIds : list string) (i : nat) (d : Draw)
  : option Offer :=
  match arrayElement cats (draw_category d) with
  | None => None
  | Some category =>
      match arrayElement sellerIds (draw_seller d) with
      | None => None
      | Some seller =>
          Some {| _id := ("offer_" ++ number_to_string (Z.of_nat i + 1))%string;
                  title := draw_title d;
                  gameCategory := category;
                  sellerId := seller;
                  price := draw_price d;
                  description := draw_description d;
                  rating := draw_rating d;
                  stock := draw_stock d;
                  createdAt := draw_createdAt d;
                  tags := draw_tags d;
                  sellerHash := None;
                  seedUsed := None |}
      end
  end.

Fixpoint seedLoop (cats sellerIds : list string) (draws : nat -> Draw)
  (positions : list nat) : option (list Offer) :=
  match positions with
  | [] => Some []
  | i :: rest =>
      match seedOffer cats sellerIds i (draws i) with
      | None => None
      | Some o =>
          match seedLoop cats sellerIds draws rest with
          | None => None
          | Some os => Some (o :: os)
          end
      end
  end.

(** [seedData]: the documents that replace the collection, or nothing when
    the array of sellers is refused or faker throws while the offers are
    built. *)
Definition seedData (sc : SeedingConfig) (draws : nat -> Draw)
  (numOffers numSellers : option Z) : option (list Offer) :=
  let numOffers := js_or numOffers (defaultOfferCount sc) in
  let numSellers := js_or numSellers (defaultSellerCount sc) in
  match sellers numSellers with
  | None => None
  | Some sellerIds =>
      seedLoop (gameCategories sc) sellerIds draws (seq 0 (Z.to_nat numOffers))
  end.

(** One line of [getSellerStats]. *)
Record SellerStat (num : Type) : Type := {
  stat_id : string;
  offerCount : Z;
  avgPrice : num;
  avgRating : num;
  totalStock : Z
}.
Arguments stat_id {num} s.
Arguments offerCount {num} s.
Arguments avgPrice {num} s.
Arguments avgRating {num} s.
Arguments totalStock {num} s.

Section Stats.

(** The store's [$avg] on doubles, kept abstract. *)
Variable num : Type.
Variable avg : list Q -> num.

Definition statOf (g : Group unit) : SellerStat num :=
  {| stat_id := group_id g;
     offerCount := Z.of_nat (List.length (members g));
     avgPrice := avg (map price (members g));
     avgRating := avg (map rating (members g));
     totalStock := fold_right Z.add 0 (map stock (members g)) |}.

(** [{ $match: gameCategory ? { gameCategory } : {} }]: an absent or empty
    category selects every offer. *)
Definition statsMatch (collection : list Offer) (category : option string)
  : list Offer :=
  match category with
  | None => collection
  | Some EmptyString => collection
  | Some c => stage_match collection c
  end.

(** The aggregation of [getSellerStats], which the method returns. *)
Definition getSellerStats (collection : list Offer) (category : option string)
  : list (SellerStat num) :=
  sort_by (fun a b => offerCount b <=? offerCount a)
    (map statOf
       (stage_group (map (fun o => (o, tt)) (statsMatch collection category)))).

End Stats.

End Seeding.

(** ** The rate table and the listings (price-conversion.js) *)

Module PriceStore.
Import Mongo PriceConversionSystem.

(** A Decimal128 as this program makes them: read by
    [Decimal128.fromString] from a sign, digits and a number of fractional
    digits, or from the text of a number that [toFixed] does not print in
    fixed notation (a non-finite number, or one of 10^21 and more). *)
Inductive decimal128 : Type :=
| Dec (negative : bool) (coef : Z) (scale : nat)
| DecOf (x : float).

(** [parseFloat(d.toString())] *)
Definition parse_decimal (d : decimal128) : float :=
  match d with
  | Dec negative n k => nearest_double negative n k
  | DecOf x => x
  end.

(** [Decimal128.fromString(x.toFixed(4))] *)
Definition decimal_of_fixed4 (x : float) : decimal128 :=
  match toFixed4 x with
  | Fixed negative n => if n <? 10 ^ 25 then Dec negative n 4 else DecOf x
  | Text y => DecOf y
  end.

Record RateDoc : Type := {
  rate_currency : string;
  toUSDRate : decimal128;
  lastUpdated : Z
}.

(** A listing: its identifier and the fields the recalculations read or
    write; its other fields are carried along unchanged. *)
Record Listing : Type := {
  listing_id : Z;
  listing_title : string;
  listing_category : option string;
  priceLocal : decimal128;
  currency : string;
  priceUSD : decimal128;
  listing_seller : string;
  listing_location : string;
  usdConversionRate : option float;
  convertedAt : option Z;
  recalculatedVia : option string
}.

(** The two collections and the in-memory cache. *)
Record System : Type := {
  listings : list Listing;
  rateDocs : list RateDoc;
  cache : Cache
}.

(** [this.currencies] *)
Definition currencies : list string := ["PHP"; "IDR"; "MYR"; "USD"].

(** [Map.prototype.set]: the value of a present key is replaced where it
    stands, a new key comes last. *)
Fixpoint cache_set (c : string) (r : float) (m : Cache) : Cache :=
  match m with
  | [] => [(c, r)]
  | (c', r') :: rest =>
      if (c' =? c)%string then (c', r) :: rest else (c', r') :: cache_set c r rest
  end.

(** [refreshExchangeRateCache]: the cache is cleared and filled from the
    rate documents. *)
Definition refreshExchangeRateCache (rates : list RateDoc) : Cache :=
  fold_left (fun m rate => cache_set (rate_currency rate)
                             (parse_decimal (toUSDRate rate)) m) rates [].

(** The documents [initializeExchangeRates] stores. *)
Definition initialRates (currentTime : Z) : list RateDoc :=
  [ {| rate_currency := "PHP"; toUSDRate := Dec false 178 4;
       lastUpdated := currentTime |};
    {| rate_currency := "IDR"; toUSDRate := Dec false 635 7;
       lastUpdated := currentTime |};
    {| rate_currency := "MYR"; toUSDRate := Dec false 2247 4;
       lastUpdated := currentTime |};
    {| rate_currency := "USD"; toUSDRate := Dec false 10000 4;
       lastUpdated := currentTime |} ].

Definition initializeExchangeRates (sys : System) (currentTime : Z) : System :=
  {| listings := listings sys;
     rateDocs := initialRates currentTime;
     cache := refreshExchangeRateCache (initialRates currentTime) |}.

(** [updateOne({ _id }, { $set: ... })]: the first document with the
    identifier is changed. *)
Fixpoint update_one (id : Z) (f : Listing -> Listing) (coll : list Listing)
  : list Listing :=
  match coll with
  | [] => []
  | l :: rest =>
      if listing_id l =? id then f l :: rest else l :: update_one id f rest
  end.

(** The [$set] of [recalculateUSDPrices]. *)
Definition setConverted (usd : decimal128) (rate : option float) (stamp : Z)
  (l : Listing) : Listing :=
  {| listing_id := listing_id l;
     listing_title := listing_title l;
     listing_category := listing_category l;
     priceLocal := priceLocal l;
     currency := currency l;
     priceUSD := usd;
     listing_seller := listing_seller l;
     listing_location := listing_location l;
     usdConversionRate := rate;
     convertedAt := Some stamp;
     recalculatedVia := recalculatedVia l |}.

(** The loop of [recalculateUSDPrices] over the listings read at its start;
    [clock i] is the date of the update of the listing at position [i].  An
    exchange rate that is not found throws, and the [catch] around the loop
    ends it there. *)
Fixpoint recalculateLoop (m : Cache) (clock : nat -> Z) (i : nat)
  (snapshot coll : list Listing) : list Listing :=
  match snapshot with
  | [] => coll
  | l :: rest =>
      if (currency l =? "USD")%string
      then recalculateLoop m clock (S i) rest coll
      else
        match convertToUSD m (parse_decimal (priceLocal l)) (currency l) with
        | Converted newUSDPrice =>
            recalculateLoop m clock (S i) rest
              (update_one (listing_id l)
                 (setConverted (decimal_of_fixed4 newUSDPrice)
                    (cache_get m (currency l)) (clock i))
                 coll)
        | RateNotFound _ => coll
        end
  end.

Definition recalculateUSDPrices (sys : System) (clock : nat -> Z) : System :=
  {| listings := recalculateLoop (cache sys) clock 0 (listings sys) (listings sys);
     rateDocs := rateDocs sys;
     cache := cache sys |}.

(** What [recalculateUSDPricesAggregation] returns; the early return for
    no record has neither speed, method nor limit value. *)
Record Metrics (num : Type) : Type := {
  totalAvailable : Z;
  recordsToProcess : Z;
  updatedRecords : Z;
  executionTimeMs : Z;
  recordsPerSecond : option num;
  metricsMethod : option string;
  limitApplied : bool;
  limitValue : option (option Z)
}.
Arguments totalAvailable {num} m.
Arguments recordsToProcess {num} m.
Arguments updatedRecords {num} m.
Arguments executionTimeMs {num} m.
Arguments recordsPerSecond {num} m.
Arguments metricsMethod {num} m.
Arguments limitApplied {num} m.
Arguments limitValue {num} m.

(** [if (limit)] on a number that may be [null]. *)
Definition truthy_limit (limit : option Z) : bool :=
  match limit with
  | Some v => negb (v =? 0)
  | None => false
  end.

(** The match criteria both the recalculation and its check build. *)
Definition matchStage (updateSinceDate : option Z) (l : Listing) : bool :=
  (negb (currency l =? "USD")%string
   && match updateSinceDate with
      | None => true
      | Some d =>
          match convertedAt l with
          | Some t => t <? d
          | None => false
          end
      end)%bool.

(** [limit ? Math.min(limit, total) : total] *)
Definition toProcess (limit : option Z) (total : Z) : Z :=
  match limit with
  | Some v => if v =? 0 then total else Z.min v total
  | None => total
  end.

(** The branches of the [$switch]: the cached rates other than USD. *)
Definition switchBranches (m : Cache) : Cache :=
  filter (fun e => negb (fst e =? "USD")%string) m.

(** The [$switch]: the rate of the first branch for the currency, 1 by
    default. *)
Definition switchRate (m : Cache) (c : string) : float :=
  match cache_get (switchBranches m) c with
  | Some r => r
  | None => one
  end.

(** What makes the store refuse the pipeline: a stage of its own, or a
    [$switch] that has no branch. *)
Inductive AggregationError : Type :=
| StageRefused (e : StoreError)
| SwitchWithoutBranch.

Inductive outcome (A : Type) : Type :=
| Done (a : A)
| Failed (e : AggregationError).
Arguments Done {A} a.
Arguments Failed {A} e.

(** [$merge] into the collection, [whenMatched: 'replace']: a stored
    document gives way to the output document with its identifier. *)
Definition merge_replace (docs coll : list Listing) : list Listing :=
  map (fun l =>
         match find (fun d => listing_id d =? listing_id l) docs with
         | Some d => d
         | None => l
         end) coll.

Section Aggregation.

(** The store's arithmetic on the price,
    [$toDecimal($round($multiply($toDouble(priceLocal), rate), 4))], and the
    speed [Math.round(updated / ms * 1000)], kept abstract. *)
Variable num : Type.
Variable store_price : decimal128 -> float -> decimal128.
Variable per_second : Z -> Z -> num.
Variable num_zero : num.

Definition repriced (m : Cache) (stamp : Z) (l : Listing) : Listing :=
  {| listing_id := listing_id l;
     listing_title := listing_title l;
     listing_category := listing_category l;
     priceLocal := priceLocal l;
     currency := currency l;
     priceUSD := store_price (priceLocal l) (switchRate m (currency l));
     listing_seller := listing_seller l;
     listing_location := listing_location l;
     usdConversionRate := Some (switchRate m (currency l));
     convertedAt := Some stamp;
     recalculatedVia := Some "pure_aggregation_pipeline" |}.

(** The pipeline up to its [$merge]: the documents it rewrites.  The
    store reads the stages in order before any document flows. *)
Definition recalculationOutput (m : Cache) (stamp : Z)
  (updateSinceDate limit : option Z) (coll : list Listing)
  : outcome (list Listing) :=
  let matched := filter (matchStage updateSinceDate) coll in
  let limited :=
    match limit with
    | Some v =>
        if v =? 0 then Ok matched
        else check_limit v ;;; Ok (stage_limit v matched)
    | None => Ok matched
    end in
  match limited with
  | Err e => Failed (StageRefused e)
  | Ok docs =>
      match switchBranches m with
      | [] => Failed SwitchWithoutBranch
      | _ :: _ => Done (map (repriced m stamp) docs)
      end
  end.

(** [recalculateUSDPricesAggregation]: the state it leaves and the metrics
    it returns or the error it throws; [start] and [finish] are the clock at
    its first line and after the aggregation, [stamp] the date put in the
    pipeline. *)
Definition recalculateUSDPricesAggregation (sys : System) (start stamp finish : Z)
  (updateSinceDate limit : option Z) : System * outcome (Metrics num) :=
  let m := match cache sys with
           | [] => refreshExchangeRateCache (rateDocs sys)
           | _ :: _ => cache sys
           end in
  let total :=
    Z.of_nat (List.length (filter (matchStage updateSinceDate) (listings sys))) in
  let records := toProcess limit total in
  let unchanged :=
    {| listings := listings sys; rateDocs := rateDocs sys; cache := m |} in
  if records =? 0 then
    (unchanged,
     Done {| totalAvailable := total;
             recordsToProcess := 0;
             updatedRecords := 0;
             executionTimeMs := finish - start;
             recordsPerSecond := None;
             metricsMethod := None;
             limitApplied := truthy_limit limit;
             limitValue := None |})
  else
    match recalculationOutput m stamp updateSinceDate limit (listings sys) with
    | Failed e => (unchanged, Failed e)
    | Done docs =>
        ({| listings := merge_replace docs (listings sys);
            rateDocs := rateDocs sys;
            cache := m |},
         Done {| totalAvailable := total;
                 recordsToProcess := records;
                 updatedRecords := records;
                 executionTimeMs := finish - start;
                 recordsPerSecond :=
                   Some (if 0 <? records then per_second records (finish - start)
                         else num_zero);
                 metricsMethod := Some "pure_aggregation_pipeline";
                 limitApplied := truthy_limit limit;
                 limitValue := Some limit |})
    end.

End Aggregation.

(** [Math.ceil(totalCount / limit)]: a number of pages, or what the
    division by a limit of 0 gives. *)
Inductive pageCount : Type :=
| Pages (n : Z)
| Endless
| NotANumber.

Definition pageCountOf (totalCount limit : Z) : pageCount :=
  if limit =? 0 then
    if totalCount =? 0 then NotANumber else Endless
  else Pages (Js.ceil_div totalCount limit).

(** [page < totalPages] *)
Definition before_last (page : Z) (n : pageCount) : bool :=
  match n with
  | Pages k => page <? k
  | Endless => true
  | NotANumber => false
  end.

(** The pagination block of [listByPrice] and [searchByPriceRange]; the
    count of documents is not negative. *)
Record ListPagination : Type := {
  lp_page : Z;
  lp_limit : Z;
  lp_skip : Z;
  lp_totalCount : Z;
  lp_totalPages : pageCount;
  lp_hasNextPage : bool;
  lp_hasPrevPage : bool
}.

Definition listPagination (page limit totalCount : Z) : ListPagination :=
  let totalPages := pageCountOf totalCount limit in
  {| lp_page := page;
     lp_limit := limit;
     lp_skip := (page - 1) * limit;
     lp_totalCount := totalCount;
     lp_totalPages := totalPages;
     lp_hasNextPage := before_last page totalPages;
     lp_hasPrevPage := 1 <? page |}.

(** What makes a listing query throw: a rate that is not found, a sort
    direction the driver does not know, a negative skip that the store
    refuses, a listing without category when its row is printed. *)
Inductive QueryError : Type :=
| NoRate (currency : string)
| InvalidSortDirection (direction : Z)
| NegativeSkip (skip : Z)
| CategoryMissing.

Inductive found (A : Type) : Type :=
| Found (a : A)
| Thrown (e : QueryError).
Arguments Found {A} a.
Arguments Thrown {A} e.

(** The listings and the pagination of a result; its performance figures
    are left out. *)
Record ListingPage : Type := {
  page_listings : list Listing;
  page_pagination : ListPagination
}.

Definition has_category (c : string) (l : Listing) : bool :=
  match listing_category l with
  | Some c' => (c' =? c)%string
  | None => false
  end.

(** [category ? { category } : {}] *)
Definition listQuery (category : option string) (l : Listing) : bool :=
  match category with
  | None => true
  | Some EmptyString => true
  | Some c => has_category c l
  end.

(** [if (category != 'All') query.category = category]: a query for the
    category [null] selects the listings that have none. *)
Definition categoryQuery (category : option string) (l : Listing) : bool :=
  match category with
  | None =>
      match listing_category l with
      | Some _ => false
      | None => true
      end
  | Some c => if (c =? "All")%string then true else has_category c l
  end.

(** [cursor.limit(n)]: no limit for 0, the absolute value for a negative
    number. *)
Definition cursor_limit {A : Type} (n : Z) (docs : list A) : list A :=
  if n =? 0 then docs else firstn (Z.to_nat (Z.abs n)) docs.

(** [listing.category.padEnd(12)] *)
Definition categoryColumn (l : Listing) : found unit :=
  match listing_category l with
  | Some _ => Found tt
  | None => Thrown CategoryMissing
  end.

(** One row of the table printed before the result is returned: the price
    is converted to the display currency unless that is USD, then the
    category is padded. *)
Definition displayRow (m : Cache) (code : string) (l : Listing) : found unit :=
  if (code =? "USD")%string then categoryColumn l
  else
    match convertFromUSD m (parse_decimal (priceUSD l)) code with
    | Converted _ => categoryColumn l
    | RateNotFound c => Thrown (NoRate c)
    end.

Fixpoint displayRows (m : Cache) (code : string) (rows : list Listing)
  : found unit :=
  match rows with
  | [] => Found tt
  | l :: rest =>
      match displayRow m code l with
      | Found _ => displayRows m code rest
      | Thrown e => Thrown e
      end
  end.

Section Listings.

(** The store's order on Decimal128 and [Decimal128.fromString(x.toString())],
    kept abstract. *)
Variable price_leb : decimal128 -> decimal128 -> bool.
Variable decimal_of_number : float -> decimal128.

Definition by_price (a b : Listing) : bool := price_leb (priceUSD a) (priceUSD b).

(** [.find(query).sort({ priceUSD: direction })] *)
Definition sorted_by_price (direction : Z) (docs : list Listing)
  : found (list Listing) :=
  if direction =? 1 then Found (sort_by by_price docs)
  else if direction =? -1 then Found (sort_by (fun a b => by_price b a) docs)
  else Thrown (InvalidSortDirection direction).

(** [.skip(skip).limit(limit).toArray()], the pagination block and the
    table of the listings in the display currency [code]. *)
Definition page_of_listings (m : Cache) (code : string) (ordered : list Listing)
  (totalCount limit page : Z) : found ListingPage :=
  let skip := (page - 1) * limit in
  if skip <? 0 then Thrown (NegativeSkip skip)
  else
    let shown := cursor_limit limit (stage_skip skip ordered) in
    match displayRows m code shown with
    | Thrown e => Thrown e
    | Found _ =>
        Found {| page_listings := shown;
                 page_pagination := listPagination page limit totalCount |}
    end.

Definition listByPrice (m : Cache) (coll : list Listing) (inputCurrency : string)
  (sortOrder limit : Z) (category : option string) (page : Z)
  : found ListingPage :=
  let matching := filter (listQuery category) coll in
  match sorted_by_price sortOrder matching with
  | Thrown e => Thrown e
  | Found ordered =>
      page_of_listings m inputCurrency ordered (Z.of_nat (List.length matching))
        limit page
  end.

(** The bounds of the range in USD. *)
Definition rangeInUSD (m : Cache) (minPrice maxPrice : float) (code : string)
  : found (decimal128 * decimal128) :=
  if (code =? "USD")%string
  then Found (decimal_of_number minPrice, decimal_of_number maxPrice)
  else
    match convertToUSD m minPrice code with
    | RateNotFound c => Thrown (NoRate c)
    | Converted minUSD =>
        match convertToUSD m maxPrice code with
        | RateNotFound c => Thrown (NoRate c)
        | Converted maxUSD =>
            Found (decimal_of_number minUSD, decimal_of_number maxUSD)
        end
    end.

(** [{ priceUSD: { $gte: lo, $lte: hi } }] *)
Definition in_range (lo hi : decimal128) (l : Listing) : bool :=
  (price_leb lo (priceUSD l) && price_leb (priceUSD l) hi)%bool.

Definition searchByPriceRange (m : Cache) (coll : list Listing)
  (minPrice maxPrice : float) (code : string) (category : option string)
  (limit page : Z) : found ListingPage :=
  match rangeInUSD m minPrice maxPrice code with
  | Thrown e => Thrown e
  | Found (lo, hi) =>
      let matching :=
        filter (fun l => (in_range lo hi l && categoryQuery category l)%bool) coll in
      match sorted_by_price 1 matching with
      | Thrown e => Thrown e
      | Found ordered =>
          page_of_listings m code ordered (Z.of_nat (List.length matching))
            limit page
      end
  end.

End Listings.

End PriceStore.

(** ** What the recalculation is compared with *)

Module Repricing.
Import PriceConversionSystem PriceStore.

(** A listing the loop of [recalculateUSDPrices] gets past: one in USD, or
    one whose currency has a usable rate. *)
Definition convertible (m : Cache) (l : Listing) : bool :=
  ((currency l =? "USD")%string
   || match convertToUSD m (parse_decimal (priceLocal l)) (currency l) with
      | Converted _ => true
      | RateNotFound _ => false
      end)%bool.

(** The listing [l] after its turn at date [t]. *)
Definition repriceAt (m : Cache) (t : Z) (l : Listing) : Listing :=
  if (currency l =? "USD")%string then l
  else
    match convertToUSD m (parse_decimal (priceLocal l)) (currency l) with
    | Converted p =>
        setConverted (decimal_of_fixed4 p) (cache_get m (currency l)) t l
    | RateNotFound _ => l
    end.

(** The listings in one pass from position [i], up to the first listing
    that is not convertible. *)
Fixpoint sweep (m : Cache) (clock : nat -> Z) (i : nat) (coll : list Listing)
  : list Listing :=
  match coll with
  | [] => []
  | l :: rest =>
      if convertible m l then repriceAt m (clock i) l :: sweep m clock (S i) rest
      else l :: rest
  end.

(** The number of listings before the first that is not convertible. *)
Fixpoint reach (m : Cache) (coll : list Listing) : nat :=
  match coll with
  | [] => O
  | l :: rest => if convertible m l then S (reach m rest) else O
  end.

(** The last rate document of a currency. *)
Definition last_rate (rates : list RateDoc) (c : string) : option RateDoc :=
  find (fun r => (rate_currency r =? c)%string) (rev rates).

(** The listings a recalculation by aggregation selects. *)
Definition selected (updateSinceDate limit : option Z) (coll : list Listing)
  : list Listing :=
  let matched := filter (matchStage updateSinceDate) coll in
  match limit with
  | Some v => if v =? 0 then matched else firstn (Z.to_nat v) matched
  | None => matched
  end.

Definition is_selected (docs : list Listing) (l : Listing) : bool :=
  existsb (fun d => listing_id d =? listing_id l) docs.

(** The listings of a page, none when the query threw. *)
Definition listings_of (r : found ListingPage) : list Listing :=
  match r with
  | Found x => page_listings x
  | Thrown _ => []
  end.

(** A display currency with a usable rate. *)
Definition displayable (m : Cache) (code : string) : bool :=
  ((code =? "USD")%string
   || match cache_get m code with
      | Some r => negb (falsy r)
      | None => false
      end)%bool.

(** The rows of a page of the listings [docs], none when the sort throws. *)
Definition shown_rows (price_leb : decimal128 -> decimal128 -> bool)
  (direction limit page : Z) (docs : list Listing) : list Listing :=
  match sorted_by_price price_leb direction docs with
  | Found ordered =>
      cursor_limit limit (Mongo.stage_skip ((page - 1) * limit) ordered)
  | Thrown _ => []
  end.

(** No two different listings have equivalent prices in USD: no sort by
    price has a tie to break. *)
Definition distinct_prices (price_leb : decimal128 -> decimal128 -> bool)
  (docs : list Listing) : Prop :=
  forall a b, In a docs -> In b docs ->
    price_leb (priceUSD a) (priceUSD b) = true ->
    price_leb (priceUSD b) (priceUSD a) = true -> a = b.

(** The order a sort direction asks for. *)
Definition in_order (price_leb : decimal128 -> decimal128 -> bool) (direction : Z)
  (a b : Listing) : Prop :=
  if direction =? 1 then by_price price_leb a b = true
  else by_price price_leb b a = true.

End Repricing.

(** ** Sample listings *)

Module SampleShop.
Import PriceConversionSystem PriceStore.

Definition listing (id : Z) (code : string) (cents : Z) : Listing :=
  {| listing_id := id;
     listing_title := "Handmade chair";
     listing_category := Some "Home & Garden";
     priceLocal := Dec false cents 2;
     currency := code;
     priceUSD := Dec false 0 4;
     listing_seller := "seller_4";
     listing_location := "Manila";
     usdConversionRate := None;
     convertedAt := Some 100;
     recalculatedVia := None |}.

(** Four listings, the third in a currency without a rate. *)
Definition shop : System :=
  {| listings := [listing 1 "PHP" 150000; listing 2 "USD" 2500;
                  listing 3 "THB" 90000; listing 4 "MYR" 12000];
     rateDocs := initialRates 0;
     cache := initialCache |}.


(** Three listings with their prices in USD, and an order on the prices
    of these listings. *)
Definition priced : list Listing :=
  [ setConverted (Dec false 267000 4) None 100 (listing 1 "PHP" 150000);
    setConverted (Dec false 250000 4) None 100 (listing 2 "USD" 2500);
    setConverted (Dec false 269640 4) None 100 (listing 4 "MYR" 12000) ].

Definition coefficient (d : decimal128) : Z :=
  match d with
  | Dec _ c _ => c
  | DecOf _ => 0
  end.

Definition by_coefficient (a b : decimal128) : bool :=
  coefficient a <=? coefficient b.

End SampleShop.

(** * Properties *)

Import Js Mongo FairMarketplace Props Pages.

(** ** The result monad *)

Lemma mapM_ok {A B : Type} (f : A -> result B) (g : A -> B) (l : list A) :
  (forall x, In x l -> f x = Ok (g x)) -> mapM f l = Ok (map g l).
Proof.
  induction l as [|x xs IH]; intros H; simpl.
  - reflexivity.
  - rewrite (H x (or_introl eq_refl)). simpl.
    rewrite IH by (intros y Hy; apply H; right; exact Hy).
    reflexivity.
Qed.

Lemma mapM_inv {A B : Type} (f : A -> result B) (l : list A) (ys : list B) :
  mapM f l = Ok ys -> Forall2 (fun x y => f x = Ok y) l ys.
Proof.
  revert ys. induction l as [|x xs IH]; intros ys H; simpl in H.
  - injection H as <-. constructor.
  - destruct (f x) as [y|e] eqn:Hx; simpl in H; [|discriminate].
    destruct (mapM f xs) as [ys'|e] eqn:Hxs; simpl in H; [|discriminate].
    injection H as <-. constructor; [exact Hx | apply IH; reflexivity].
Qed.

Lemma mapM_err {A B : Type} (f : A -> result B) (l : list A) (x : A) :
  In x l -> is_ok (f x) = false -> is_ok (mapM f l) = false.
Proof.
  induction l as [|y ys IH]; intros Hin Hx; simpl in *.
  - contradiction.
  - destruct Hin as [->|Hin].
    + destruct (f x); [discriminate | reflexivity].
    + destruct (f y); simpl; [|reflexivity].
      specialize (IH Hin Hx). destruct (mapM f ys); [discriminate | reflexivity].
Qed.

Lemma mapM_total {A B : Type} (f : A -> result B) (l : list A) :
  forallb (fun x => is_ok (f x)) l = true -> exists ys, mapM f l = Ok ys.
Proof.
  induction l as [|x xs IH]; simpl; intros H.
  - eexists; reflexivity.
  - apply andb_true_iff in H as [Hx Hxs].
    destruct (f x) as [y|e]; [|discriminate].
    destruct (IH Hxs) as [ys ->]. simpl. eexists; reflexivity.
Qed.

(** ** Sorting *)

Section SortBy.
Context {A : Type} (leb : A -> A -> bool).

Lemma insert_by_perm (x : A) (l : list A) :
  Permutation (insert_by leb x l) (x :: l).
Proof.
  induction l as [|y ys IH]; simpl.
  - apply Permutation_refl.
  - destruct (leb x y).
    + apply Permutation_refl.
    + eapply perm_trans; [apply perm_skip, IH | apply perm_swap].
Qed.

Lemma sort_by_perm (l : list A) : Permutation (sort_by leb l) l.
Proof.
  induction l as [|x xs IH]; simpl.
  - constructor.
  - eapply perm_trans; [apply insert_by_perm | apply perm_skip, IH].
Qed.


Lemma sort_by_in (x : A) (l : list A) : In x (sort_by leb l) <-> In x l.
Proof.
  split; apply Permutation_in; [|apply Permutation_sym]; apply sort_by_perm.
Qed.

Hypothesis leb_total : forall a b, leb a b = true \/ leb b a = true.

Let le (a b : A) : Prop := leb a b = true.

Lemma insert_by_hdrel (a x : A) (l : list A) :
  le a x -> HdRel le a l -> HdRel le a (insert_by leb x l).
Proof.
  intros Hax Hal. destruct l as [|y ys]; simpl.
  - constructor. exact Hax.
  - destruct (leb x y); constructor.
    + exact Hax.
    + inversion Hal; assumption.
Qed.

Lemma insert_by_sorted (x : A) (l : list A) :
  Sorted le l -> Sorted le (insert_by leb x l).
Proof.
  induction l as [|y ys IH]; intros Hs; simpl.
  - repeat constructor.
  - destruct (leb x y) eqn:Hxy.
    + constructor; [exact Hs | constructor; exact Hxy].
    + inversion Hs as [|? ? Hys Hhd]; subst.
      constructor; [apply IH; exact Hys|].
      apply insert_by_hdrel; [|exact Hhd].
      destruct (leb_total x y) as [H|H]; [congruence | exact H].
Qed.

Lemma sort_by_sorted (l : list A) : Sorted le (sort_by leb l).
Proof.
  induction l as [|x xs IH]; simpl.
  - constructor.
  - apply insert_by_sorted, IH.
Qed.

End SortBy.

(** ** Slices *)



Lemma slice_window {A : Type} (l : list A) (start len : Z) :
  0 <= start -> 0 <= len ->
  slice l start (start + len) = firstn (Z.to_nat len) (skipn (Z.to_nat start) l).
Proof.
  intros Hs Hl. unfold slice, relative_index.
  destruct (Z.ltb_spec start 0); [lia|].
  destruct (Z.ltb_spec (start + len) 0); [lia|].
  set (n := Z.of_nat (List.length l)).
  destruct (Z.le_gt_cases n start) as [Hout|Hin].
  - rewrite (Z.min_r start n), (Z.min_r (start + len) n) by lia.
    rewrite Z.sub_diag. simpl.
    rewrite (skipn_all2 (n:=Z.to_nat start)) by lia.
    rewrite firstn_nil. reflexivity.
  - rewrite (Z.min_l start n) by lia.
    destruct (Z.le_gt_cases (start + len) n) as [Hfit|Hover].
    + rewrite (Z.min_l (start + len) n) by lia. f_equal. lia.
    + rewrite (Z.min_r (start + len) n) by lia.
      rewrite !firstn_all2; try reflexivity; rewrite length_skipn; lia.
Qed.

Lemma slice_length {A : Type} (l : list A) (start len : Z) :
  0 <= start -> 0 <= len ->
  Z.of_nat (List.length (slice l start (start + len))) <= len.
Proof.
  intros Hs Hl. rewrite slice_window by assumption.
  pose proof (firstn_le_length (Z.to_nat len) (skipn (Z.to_nat start) l)). lia.
Qed.

Lemma slice_beyond {A : Type} (l : list A) (start len : Z) :
  0 <= len -> Z.of_nat (List.length l) <= start ->
  slice l start (start + len) = [].
Proof.
  intros Hl Hout. rewrite slice_window by lia.
  rewrite (skipn_all2 (n:=Z.to_nat start)) by lia. apply firstn_nil.
Qed.

(** ** The pagination block *)

Lemma ceil_div_bounds (a b : Z) :
  0 < b -> (ceil_div a b - 1) * b < a /\ a <= ceil_div a b * b.
Proof.
  intros Hb. unfold ceil_div.
  pose proof (Z.mul_div_le (- a) b Hb).
  pose proof (Z.mul_succ_div_gt (- a) b Hb).
  split; nia.
Qed.

Lemma js_or_some (v d : Z) : v <> 0 -> js_or (Some v) d = v.
Proof.
  intros Hv. unfold js_or. destruct (Z.eqb_spec v 0); [contradiction | reflexivity].
Qed.




(** ** When the seeded aggregations succeed *)

Lemma addHashFields_is_ok (seed : Z) (o : Offer) :
  is_ok (addHashFields seed o) = is_ok (s <- hashSuffix (sellerId o) ;; toInt s).
Proof.
  unfold addHashFields, sellerHashOf.
  destruct (hashSuffix (sellerId o)) as [s|e]; simpl; [|reflexivity].
  destruct (toInt s); reflexivity.
Qed.

Lemma hashOrdered_total (collection : list Offer) (category : string) (seed : Z) :
  hash_ids_ok collection category = true ->
  exists docs,
    mapM (addHashFields seed) (stage_match collection category) = Ok docs
    /\ hashOrdered collection category seed = Ok (sort_by hash_leb docs).
Proof.
  intros Hids. unfold hashOrdered.
  destruct (mapM_total (addHashFields seed) (stage_match collection category)) as [docs Hd].
  - unfold hash_ids_ok in Hids. rewrite forallb_forall in *.
    intros o Ho. rewrite addHashFields_is_ok. apply Hids, Ho.
  - exists docs. rewrite Hd. split; reflexivity.
Qed.

Lemma sellerOrderOf_is_ok (seed : Z) (o : Offer) :
  is_ok (k <- sellerOrderOf seed o ;; Ok (o, k))
  = is_ok (s <- substr_from (sellerId o) 7 ;; toInt s).
Proof.
  unfold sellerOrderOf.
  destruct (substr_from (sellerId o) 7) as [s|e]; simpl; [|reflexivity].
  destruct (toInt s); reflexivity.
Qed.

Lemma sellerGroups_total (collection : list Offer) (category : string) (seed : Z) :
  rr_ids_ok collection category = true ->
  exists keyed,
    mapM (fun o => k <- sellerOrderOf seed o ;; Ok (o, k))
      (sort_by quality_leb (stage_match collection category)) = Ok keyed
    /\ sellerGroups collection category seed
       = Ok (sort_by (fun g h => order_key g <=? order_key h) (stage_group keyed)).
Proof.
  intros Hids. unfold sellerGroups.
  destruct (mapM_total (fun o => k <- sellerOrderOf seed o ;; Ok (o, k))
              (sort_by quality_leb (stage_match collection category))) as [keyed Hk].
  - unfold rr_ids_ok in Hids. rewrite forallb_forall in *.
    intros o Ho. rewrite sellerOrderOf_is_ok. apply Hids.
    apply (sort_by_in quality_leb). exact Ho.
  - exists keyed. rewrite Hk. split; reflexivity.
Qed.

Lemma forallb_false_in {A : Type} (p : A -> bool) (l : list A) :
  forallb p l = false -> exists x, In x l /\ p x = false.
Proof.
  induction l as [|x xs IH]; simpl; [discriminate|].
  destruct (p x) eqn:Hx; simpl.
  - intros H. destruct (IH H) as (y & Hy & Hpy). exists y. split; [right|]; assumption.
  - intros _. exists x. split; [left; reflexivity | exact Hx].
Qed.


Lemma true_round_robin_fails_on_bad_id (cfg : Config) (collection : list Offer)
  (now : Z) (category : string) (pg : Z) (lim randomSeed : option Z) :
  rr_ids_ok collection category = false ->
  is_ok (getOffersTrueRoundRobin cfg collection now category pg lim randomSeed) = false.
Proof.
  intros Hids. apply forallb_false_in in Hids as (o & Ho & Hbad).
  rewrite <- (sellerOrderOf_is_ok (seedOf cfg now randomSeed)) in Hbad.
  apply (sort_by_in quality_leb) in Ho.
  pose proof (mapM_err
    (fun o => k <- sellerOrderOf (seedOf cfg now randomSeed) o ;; Ok (o, k))
    _ o Ho Hbad) as Hm.
  unfold getOffersTrueRoundRobin, sellerGroups.
  destruct (mapM _ _); [discriminate | reflexivity].
Qed.

(** ** The Pager *)

Section PagerContract.
Variable cfg : Config.
Variable collection : list Offer.
Variable category : string.
Variables pg lim : Z.
Hypothesis pg_valid : 1 <= pg.
Hypothesis lim_valid : 1 <= lim.

Let totalCount : Z := countDocuments collection category.




Section Randomised.
Variable num : Type.
Variable num_of_Z : Z -> num.
Variable num_add num_mul num_div : num -> num -> num.
Variable num_leb : num -> num -> bool.
Variable rnd : nat -> num.



End Randomised.

End PagerContract.




(** ** Lists of lists *)

Lemma flat_map_nil {A B : Type} (l : list A) :
  flat_map (fun _ => @nil B) l = [].
Proof. induction l; simpl; auto. Qed.

Lemma flat_map_of_map {A B C : Type} (g : A -> B) (f : B -> list C) (l : list A) :
  flat_map f (map g l) = flat_map (fun x => f (g x)) l.
Proof.
  induction l as [|x xs IH]; simpl; [reflexivity | rewrite IH; reflexivity].
Qed.

Lemma map_of_flat_map {A B C : Type} (f : B -> C) (g : A -> list B) (l : list A) :
  map f (flat_map g l) = flat_map (fun x => map f (g x)) l.
Proof.
  induction l as [|x xs IH]; simpl; [reflexivity|].
  rewrite map_app, IH. reflexivity.
Qed.

Lemma flat_map_split {A B : Type} (f g : A -> list B) (l : list A) :
  Permutation (flat_map (fun x => f x ++ g x) l) (flat_map f l ++ flat_map g l).
Proof.
  induction l as [|x xs IH]; simpl.
  - constructor.
  - rewrite <- !app_assoc. apply Permutation_app_head.
    eapply perm_trans; [apply Permutation_app_head, IH|].
    rewrite !app_assoc. apply Permutation_app_tail, Permutation_app_comm.
Qed.

Lemma flat_map_swap {A B C : Type} (f : A -> B -> list C) (xs : list A) (ys : list B) :
  Permutation (flat_map (fun x => flat_map (f x) ys) xs)
              (flat_map (fun y => flat_map (fun x => f x y) xs) ys).
Proof.
  induction xs as [|x xs IH]; simpl.
  - rewrite flat_map_nil. constructor.
  - eapply perm_trans; [apply Permutation_app_head, IH|].
    apply Permutation_sym, flat_map_split.
Qed.

Section Selecting.
Context {A : Type} (x : A).

Let only (k k' : string) : list A := if (k =? k')%string then [x] else [].

Lemma flat_map_only_absent (k : string) (ks : list string) :
  ~ In k ks -> flat_map (only k) ks = [].
Proof.
  induction ks as [|k' ks IH]; simpl; intros Hn; [reflexivity|].
  unfold only at 1. destruct (String.eqb_spec k k') as [->|_].
  - exfalso. apply Hn. left. reflexivity.
  - apply IH. intros H. apply Hn. right. exact H.
Qed.

Lemma flat_map_only_present (k : string) (ks : list string) :
  NoDup ks -> In k ks -> flat_map (only k) ks = [x].
Proof.
  induction ks as [|k' ks IH]; simpl; intros Hnd Hin; [contradiction|].
  inversion Hnd as [|? ? Hk' Hks]; subst.
  unfold only at 1. destruct (String.eqb_spec k k') as [->|Hne].
  - simpl. rewrite flat_map_only_absent by exact Hk'. reflexivity.
  - destruct Hin as [Heq|Hin]; [congruence|]. apply IH; assumption.
Qed.

End Selecting.

(** Splitting a list by a key taken from a duplicate-free list that covers
    its keys loses and repeats nothing. *)
Lemma partition_by_key {A : Type} (key : A -> string) (ks : list string) (l : list A) :
  NoDup ks -> (forall x, In x l -> In (key x) ks) ->
  Permutation (flat_map (fun k => filter (fun x => (key x =? k)%string) l) ks) l.
Proof.
  intros Hnd. induction l as [|d ds IH]; intros Hcov; simpl.
  - rewrite flat_map_nil. constructor.
  - eapply perm_trans.
    + apply Permutation_refl' with
        (y := flat_map (fun k => (if (key d =? k)%string then [d] else [])
                                 ++ filter (fun x => (key x =? k)%string) ds) ks).
      apply flat_map_ext. intros k. destruct (key d =? k)%string; reflexivity.
    + eapply perm_trans; [apply flat_map_split|].
      rewrite (flat_map_only_present d (key d) ks Hnd) by (apply Hcov; left; reflexivity).
      simpl. apply perm_skip, IH. intros x Hx. apply Hcov. right. exact Hx.
Qed.

(** ** Grouping by seller *)

Section Grouping.
Context {K : Type}.

Let key (d : Offer * K) : string := sellerId (fst d).

Lemma first_docs_incl (docs : list (Offer * K)) (d : Offer * K) :
  In d (first_docs docs) -> In d docs.
Proof.
  induction docs as [|x xs IH]; simpl; [tauto|].
  intros [->|H]; [left; reflexivity|].
  right. apply IH. apply filter_In in H. tauto.
Qed.

Lemma first_docs_covers (docs : list (Offer * K)) (d : Offer * K) :
  In d docs -> In (key d) (map key (first_docs docs)).
Proof.
  induction docs as [|x xs IH]; simpl; [tauto|].
  intros [->|H]; [left; reflexivity|].
  destruct (String.eqb_spec (key d) (key x)) as [Heq|Hne].
  - left. symmetry. exact Heq.
  - right. apply in_map_iff in IH as (y & Hy & Hin); [|exact H].
    apply in_map_iff. exists y. split; [exact Hy|].
    apply filter_In. split; [exact Hin|].
    apply negb_true_iff, String.eqb_neq. fold (key y) (key x). congruence.
Qed.

Lemma NoDup_map_filter {X Y : Type} (proj : X -> Y) (keep : X -> bool)
  (xs : list X) (Hnd : NoDup (map proj xs)) :
  NoDup (map proj (filter keep xs)).
Proof.
  induction xs as [|x xs IH]; simpl; [constructor|].
  inversion Hnd as [|? ? Hx Hxs]; subst.
  destruct (keep x); simpl; [constructor|]; auto.
  intros Hin. apply Hx. apply in_map_iff in Hin as (y & Hy & Hin).
  apply in_map_iff. exists y. split; [exact Hy|].
  apply filter_In in Hin. tauto.
Qed.

Lemma first_docs_nodup (docs : list (Offer * K)) :
  NoDup (map key (first_docs docs)).
Proof.
  induction docs as [|x xs IH]; simpl; constructor.
  - intros Hin. apply in_map_iff in Hin as (y & Hy & Hin).
    apply filter_In in Hin as [_ Hne].
    apply negb_true_iff, String.eqb_neq in Hne. apply Hne. exact Hy.
  - apply NoDup_map_filter, IH.
Qed.

Lemma stage_group_ids (docs : list (Offer * K)) :
  map group_id (stage_group docs) = map key (first_docs docs).
Proof. unfold stage_group. rewrite map_map. reflexivity. Qed.

Lemma stage_group_nodup (docs : list (Offer * K)) :
  NoDup (map group_id (stage_group docs)).
Proof. rewrite stage_group_ids. apply first_docs_nodup. Qed.

Lemma stage_group_inv (docs : list (Offer * K)) (g : Group K) :
  In g (stage_group docs) ->
  exists d, In d docs
    /\ group_id g = sellerId (fst d)
    /\ order_key g = snd d
    /\ members g
       = map fst (filter (fun d' => (sellerId (fst d') =? group_id g)%string) docs).
Proof.
  unfold stage_group. intros Hin.
  apply in_map_iff in Hin as (d & <- & Hd). simpl.
  exists d. split; [apply first_docs_incl; exact Hd|].
  repeat split.
Qed.

Lemma stage_group_well (docs : list (Offer * K)) :
  Forall well_grouped (stage_group docs).
Proof.
  apply Forall_forall. intros g Hg.
  destruct (stage_group_inv docs g Hg) as (d & Hd & Hid & _ & Hm).
  split.
  - rewrite Hm. intros Hnil.
    assert (Hin : In (fst d) (map fst (filter
              (fun d' => (sellerId (fst d') =? group_id g)%string) docs))).
    { apply in_map, filter_In. split; [exact Hd|].
      rewrite Hid. apply String.eqb_refl. }
    rewrite Hnil in Hin. exact Hin.
  - rewrite Hm. apply Forall_forall. intros o Ho.
    apply in_map_iff in Ho as (d' & <- & Hd').
    apply filter_In in Hd' as [_ Heq]. apply String.eqb_eq. exact Heq.
Qed.

Lemma stage_group_flat (docs : list (Offer * K)) :
  Permutation (flat_map members (stage_group docs)) (map fst docs).
Proof.
  unfold stage_group. rewrite flat_map_of_map. simpl.
  rewrite <- (flat_map_of_map key
    (fun k => map fst (filter (fun d' => (key d' =? k)%string) docs))).
  rewrite <- map_of_flat_map.
  apply Permutation_map, partition_by_key.
  - apply first_docs_nodup.
  - intros d Hd. apply first_docs_covers. exact Hd.
Qed.

End Grouping.

(** ** The round-robin loops *)

Lemma pushRound_spec (groups : list (Group Z)) (acc : list Offer) (round : nat) :
  pushRound groups acc round = acc ++ flat_map (pick round) groups.
Proof.
  unfold pushRound. revert acc.
  induction groups as [|g gs IH]; intros acc; simpl.
  - rewrite app_nil_r. reflexivity.
  - rewrite IH. unfold pick at 2.
    destruct (nth_error (members g) round); simpl.
    + rewrite <- app_assoc. reflexivity.
    + reflexivity.
Qed.

Lemma fold_pushRound (groups : list (Group Z)) (rounds : list nat) (acc : list Offer) :
  fold_left (pushRound groups) rounds acc
  = acc ++ flat_map (fun round => flat_map (pick round) groups) rounds.
Proof.
  revert acc. induction rounds as [|r rs IH]; intros acc; simpl.
  - rewrite app_nil_r. reflexivity.
  - rewrite IH, pushRound_spec, app_assoc. reflexivity.
Qed.

Lemma math_max_from (xs : list nat) (m : nat) :
  fold_left (fun acc x =>
               match acc with
               | NegInfinity => Fin x
               | Fin m => Fin (Z.max m x)
               end) (map Z.of_nat xs) (Fin (Z.of_nat m))
  = Fin (Z.of_nat (Nat.max m (list_max xs))).
Proof.
  revert m. induction xs as [|x xs IH]; intros m; simpl.
  - rewrite Nat.max_0_r. reflexivity.
  - rewrite <- Nat2Z.inj_max, IH, Nat.max_assoc. reflexivity.
Qed.

Lemma for_range_math_max (xs : list nat) :
  for_range (math_max (map Z.of_nat xs)) = seq 0 (list_max xs).
Proof.
  unfold math_max. destruct xs as [|x xs]; simpl; [reflexivity|].
  rewrite math_max_from. simpl. rewrite Nat2Z.id. reflexivity.
Qed.

(** The loops compute the interleaving of the specification. *)
Lemma roundRobinOffers_interleave (groups : list (Group Z)) :
  roundRobinOffers groups = interleave groups.
Proof.
  unfold roundRobinOffers, interleave, maxOffersPerSeller.
  rewrite fold_pushRound. simpl.
  rewrite <- (map_map (fun g => List.length (members g)) Z.of_nat).
  rewrite for_range_math_max. reflexivity.
Qed.

Lemma skipn_nth_error {A : Type} (l : list A) (s : nat) :
  skipn s l = match nth_error l s with
              | Some x => x :: skipn (S s) l
              | None => []
              end.
Proof.
  revert l. induction s as [|s IH]; intros [|x xs]; simpl; try reflexivity.
  rewrite IH. destruct (nth_error xs s); reflexivity.
Qed.

Lemma rounds_of_group (g : Group Z) (s n : nat) :
  flat_map (fun round => pick round g) (seq s n) = firstn n (skipn s (members g)).
Proof.
  revert s. induction n as [|n IH]; intros s; simpl.
  - reflexivity.
  - rewrite IH, (skipn_nth_error (members g) s). unfold pick.
    destruct (nth_error (members g) s) eqn:E.
    + reflexivity.
    + apply nth_error_None in E.
      rewrite (skipn_all2 (n := S s)) by lia.
      rewrite firstn_nil. reflexivity.
Qed.

Lemma interleave_perm (groups : list (Group Z)) :
  Permutation (interleave groups) (flat_map members groups).
Proof.
  unfold interleave.
  set (m := list_max (map (fun g => List.length (members g)) groups)).
  assert (Hm : Forall (fun g => (List.length (members g) <= m)%nat) groups).
  { assert (H : (list_max (map (fun g => List.length (members g)) groups) <= m)%nat)
      by reflexivity.
    apply list_max_le in H. rewrite Forall_map in H. exact H. }
  clearbody m.
  eapply perm_trans; [apply flat_map_swap|].
  apply Permutation_refl'.
  induction Hm as [|g gs Hg _ IH]; simpl; [reflexivity|].
  rewrite IH, rounds_of_group. simpl.
  rewrite firstn_all2 by exact Hg. reflexivity.
Qed.

Lemma pick_first_of_group (g : Group Z) :
  well_grouped g -> exists o, pick 0 g = [o] /\ sellerId o = group_id g.
Proof.
  intros [Hne Hall]. unfold pick.
  destruct (members g) as [|o os]; [contradiction|].
  exists o. split; [reflexivity|]. inversion Hall; assumption.
Qed.

Lemma first_round_sellers (groups : list (Group Z)) :
  Forall well_grouped groups ->
  List.length (flat_map (pick 0) groups) = List.length groups
  /\ map sellerId (flat_map (pick 0) groups) = map group_id groups.
Proof.
  induction 1 as [|g gs Hg _ [IHl IHs]]; simpl; [split; reflexivity|].
  destruct (pick_first_of_group g Hg) as (o & -> & Ho). simpl.
  rewrite IHl, IHs, Ho. split; reflexivity.
Qed.

(** Round 0 comes first and holds one offer of each seller. *)
Lemma interleave_first_round (groups : list (Group Z)) :
  Forall well_grouped groups ->
  map sellerId (firstn (List.length groups) (interleave groups))
  = map group_id groups.
Proof.
  intros Hw. destruct (first_round_sellers groups Hw) as [Hlen Hs].
  unfold interleave.
  destruct (list_max (map (fun g => List.length (members g)) groups)) as [|m] eqn:Hm.
  - destruct groups as [|g gs]; [reflexivity|]. exfalso.
    inversion Hw as [|? ? [Hne _] _]; subst.
    assert (H : (list_max (map (fun g => List.length (members g)) (g :: gs)) <= 0)%nat)
      by lia.
    apply list_max_le in H. inversion H as [|? ? H0 _]; subst.
    destruct (members g); [contradiction | simpl in H0; lia].
  - simpl. rewrite <- Hlen at 1.
    rewrite firstn_app, Nat.sub_diag, firstn_all. simpl.
    rewrite app_nil_r. exact Hs.
Qed.

(** ** The round-robin aggregation *)

Lemma Sorted_weaken {A : Type} (R R' : A -> A -> Prop) (l : list A) :
  (forall a b, R a b -> R' a b) -> Sorted R l -> Sorted R' l.
Proof.
  intros Himp. induction 1 as [|a l _ IH Hhd]; constructor; [exact IH|].
  destruct Hhd; constructor; auto.
Qed.

Lemma Forall2_in_right {A B : Type} (R : A -> B -> Prop) (xs : list A)
  (ys : list B) (y : B) :
  Forall2 R xs ys -> In y ys -> exists x, In x xs /\ R x y.
Proof.
  induction 1 as [|x y' l l' Hxy _ IH]; simpl; [tauto|].
  intros [->|Hin].
  - exists x. split; [left; reflexivity | exact Hxy].
  - destruct (IH Hin) as (x' & Hx' & HR). exists x'. split; [right|]; assumption.
Qed.

Section Keyed.
Variable seed : Z.
Variable docs : list Offer.
Variable keyed : list (Offer * Z).
Hypothesis keyed_ok :
  mapM (fun o => k <- sellerOrderOf seed o ;; Ok (o, k)) docs = Ok keyed.

Lemma keyed_docs : map fst keyed = docs.
Proof.
  apply mapM_inv in keyed_ok.
  induction keyed_ok as [|o d l l' Hod _ IH]; simpl; [reflexivity|].
  rewrite IH. f_equal.
  destruct (sellerOrderOf seed o); simpl in Hod; [|discriminate].
  injection Hod as <-. reflexivity.
Qed.

Lemma keyed_key (d : Offer * Z) :
  In d keyed ->
  exists n, (s <- substr_from (sellerId (fst d)) 7 ;; toInt s) = Ok n
            /\ snd d = mod_ (n + seed) 1000.
Proof.
  intros Hd. apply mapM_inv in keyed_ok.
  destruct (Forall2_in_right _ _ _ _ keyed_ok Hd) as (o & _ & Ho).
  unfold sellerOrderOf in Ho.
  destruct (substr_from (sellerId o) 7) as [s|e] eqn:Hs; simpl in Ho; [|discriminate].
  destruct (toInt s) as [n|e] eqn:Hn; simpl in Ho; [|discriminate].
  injection Ho as <-. simpl. rewrite Hs. simpl. exists n. split; [exact Hn | reflexivity].
Qed.

End Keyed.

Section SellerGroups.
Variable collection : list Offer.
Variable category : string.
Variable seed : Z.
Variable groups : list (Group Z).
Hypothesis groups_ok : sellerGroups collection category seed = Ok groups.

Lemma sellerGroups_inv :
  exists keyed,
    mapM (fun o => k <- sellerOrderOf seed o ;; Ok (o, k))
      (sort_by quality_leb (stage_match collection category)) = Ok keyed
    /\ groups = sort_by (fun g h => order_key g <=? order_key h) (stage_group keyed).
Proof.
  unfold sellerGroups in groups_ok.
  destruct (mapM _ _) as [keyed|e] eqn:Hk; simpl in groups_ok; [|discriminate].
  injection groups_ok as <-. exists keyed. split; reflexivity.
Qed.

Lemma sellerGroups_sorted :
  Sorted (fun g h => order_key g <= order_key h) groups.
Proof.
  destruct sellerGroups_inv as (keyed & _ & ->).
  eapply Sorted_weaken; [|apply sort_by_sorted].
  - intros g h. apply Z.leb_le.
  - intros g h. rewrite !Z.leb_le. lia.
Qed.

Lemma sellerGroups_keys :
  Forall (fun g => exists n,
              (s <- substr_from (group_id g) 7 ;; toInt s) = Ok n
              /\ order_key g = mod_ (n + seed) 1000) groups.
Proof.
  destruct sellerGroups_inv as (keyed & Hk & ->).
  apply Forall_forall. intros g Hg. apply sort_by_in in Hg.
  destruct (stage_group_inv keyed g Hg) as (d & Hd & -> & -> & _).
  exact (keyed_key seed _ keyed Hk d Hd).
Qed.

Lemma sellerGroups_well : Forall well_grouped groups.
Proof.
  destruct sellerGroups_inv as (keyed & _ & ->).
  eapply Permutation_Forall; [apply Permutation_sym, sort_by_perm|].
  apply stage_group_well.
Qed.

Lemma sellerGroups_nodup : NoDup (map group_id groups).
Proof.
  destruct sellerGroups_inv as (keyed & _ & ->).
  eapply Permutation_NoDup;
    [apply Permutation_map, Permutation_sym, sort_by_perm|].
  apply stage_group_nodup.
Qed.

Lemma sellerGroups_flat :
  Permutation (flat_map members groups) (stage_match collection category).
Proof.
  destruct sellerGroups_inv as (keyed & Hk & ->).
  eapply perm_trans; [apply Permutation_flat_map, sort_by_perm|].
  eapply perm_trans; [apply stage_group_flat|].
  rewrite (keyed_docs seed _ keyed Hk). apply sort_by_perm.
Qed.

End SellerGroups.

(** C1, as the code has it.  Whenever every seller identifier of the
    category spells an integer of 32 bits from byte 7 on, and the seed lies
    between -2^52 and 2^52, the round-robin aggregation returns the seller
    groups in ascending order of the key (suffix + seed) [$mod] 1000, the
    loops build exactly the interleaving by rounds (round 0 up to the
    largest group size minus 1, each group's element at that index in group
    order, nothing for a group without it), and the page is the slice from
    skip to skip + limit of that sequence.  Its first elements, as many as
    there are sellers, hold one offer of each seller, in group order. *)
Theorem true_round_robin_interleaves
  (cfg : Config) (collection : list Offer) (now : Z) (category : string) (pg : Z)
  (lim randomSeed : option Z) :
  rr_ids_ok collection category = true ->
  let seed := seedOf cfg now randomSeed in
  - 4503599627370496 <= seed <= 4503599627370496 ->
  let limit := js_or lim (defaultPageSize cfg) in
  let skip := (pg - 1) * limit in
  exists groups r,
    sellerGroups collection category seed = Ok groups
    /\ Sorted (fun g h => order_key g <= order_key h) groups
    /\ Forall (fun g => exists n,
                  (s <- substr_from (group_id g) 7 ;; toInt s) = Ok n
                  /\ order_key g = mod_ (n + seed) 1000) groups
    /\ roundRobinOffers groups = interleave groups
    /\ getOffersTrueRoundRobin cfg collection now category pg lim randomSeed = Ok r
    /\ offers r = slice (interleave groups) skip (skip + limit)
    /\ NoDup (map group_id groups)
    /\ map sellerId (firstn (List.length groups) (interleave groups))
       = map group_id groups.
Proof.
  intros Hids seed _ limit skip.
  destruct (sellerGroups_total collection category seed Hids) as (keyed & _ & Hg).
  eexists; eexists. split; [exact Hg|].
  split; [eapply sellerGroups_sorted; exact Hg|].
  split; [eapply sellerGroups_keys; exact Hg|].
  split; [apply roundRobinOffers_interleave|].
  unfold getOffersTrueRoundRobin. fold seed limit skip. rewrite Hg. simpl.
  split; [reflexivity|].
  split; [rewrite roundRobinOffers_interleave; reflexivity|].
  split; [eapply sellerGroups_nodup; exact Hg|].
  apply interleave_first_round. eapply sellerGroups_well; exact Hg.
Qed.

(** Sellers holding 5, 2 and 2 offers: the first three elements are one
    offer of each. *)
Lemma true_round_robin_interleaves_witness :
  exists r,
    getOffersTrueRoundRobin config Sample.rpg 0 "RPG" 1 (Some 3) (Some 42) = Ok r
    /\ map sellerId (offers r) = ["seller_1"; "seller_2"; "seller_3"].
Proof.
  destruct (true_round_robin_interleaves config Sample.rpg 0 "RPG" 1 (Some 3) (Some 42))
    as (groups & r & _ & _ & _ & _ & Hr & _).
  - reflexivity.
  - simpl. lia.
  - exists r. split; [exact Hr|].
    vm_compute in Hr. injection Hr as <-. reflexivity.
Defined.

(** Not for every category: a seller identifier whose text from byte 7 on
    is no integer (here merchant_12, whose number starts later) makes the
    aggregation throw, and the call has no sequence at all. *)
Lemma true_round_robin_throws_on_late_suffix :
  let o := Sample.offer "offer_1" "RPG" "merchant_12" 4 100 in
  sellerGroups [o] "RPG" 42 = Err (ConversionFailure "t_12")
  /\ getOffersTrueRoundRobin config [o] 0 "RPG" 1 (Some 3) (Some 42)
     = Err (ConversionFailure "t_12").
Proof. split; reflexivity. Qed.

(** C10, as the code has it.  Whenever the aggregation succeeds (every
    seller identifier of the category spells an integer from byte 7 on,
    which holds of the empty category), the
    interleaved sequence is a permutation of the category's offers; its
    length is the count reported as [pagination.total]; an empty category
    makes it empty, and the call returns. *)
Theorem true_round_robin_permutation
  (cfg : Config) (collection : list Offer) (now : Z) (category : string) (pg : Z)
  (lim randomSeed : option Z) :
  rr_ids_ok collection category = true ->
  exists groups r,
    sellerGroups collection category (seedOf cfg now randomSeed) = Ok groups
    /\ Permutation (roundRobinOffers groups) (stage_match collection category)
    /\ getOffersTrueRoundRobin cfg collection now category pg lim randomSeed = Ok r
    /\ total (pagination r) = Z.of_nat (List.length (roundRobinOffers groups))
    /\ (List.length (stage_match collection category) = 0%nat <->
        roundRobinOffers groups = []).
Proof.
  intros Hids.
  destruct (sellerGroups_total collection category (seedOf cfg now randomSeed) Hids)
    as (keyed & _ & Hg).
  assert (Hperm : Permutation (roundRobinOffers (sort_by
            (fun g h => order_key g <=? order_key h) (stage_group keyed)))
            (stage_match collection category)).
  { rewrite roundRobinOffers_interleave.
    eapply perm_trans; [apply interleave_perm|].
    eapply sellerGroups_flat. exact Hg. }
  eexists; eexists. split; [exact Hg|].
  split; [exact Hperm|].
  unfold getOffersTrueRoundRobin. rewrite Hg. simpl.
  split; [reflexivity|].
  split.
  - unfold countDocuments. rewrite (Permutation_length Hperm). reflexivity.
  - rewrite <- (Permutation_length Hperm). apply length_zero_iff_nil.
Qed.

Lemma true_round_robin_permutation_witness :
  (exists r,
      getOffersTrueRoundRobin config Sample.rpg 0 "RPG" 1 None (Some 42) = Ok r
      /\ List.length (offers r) = 9%nat /\ total (pagination r) = 9)
  /\ (exists r,
      getOffersTrueRoundRobin config Sample.rpg 0 "Puzzle" 1 None (Some 42) = Ok r
      /\ offers r = [] /\ total (pagination r) = 0).
Proof.
  split.
  - destruct (true_round_robin_permutation config Sample.rpg 0 "RPG" 1 None (Some 42))
      as (groups & r & _ & _ & Hr & _).
    + reflexivity.
    + exists r. split; [exact Hr|].
      vm_compute in Hr. injection Hr as <-. split; reflexivity.
  - destruct (true_round_robin_permutation config Sample.rpg 0 "Puzzle" 1 None (Some 42))
      as (groups & r & _ & _ & Hr & _).
    + reflexivity.
    + exists r. split; [exact Hr|].
      vm_compute in Hr. injection Hr as <-. split; reflexivity.
Defined.

(** Not for every candidate set: one seller identifier without an integer
    from byte 7 on (here vendor_abc) makes the aggregation throw, and no
    listing of the category appears. *)
Lemma true_round_robin_no_sequence_for_unreadable_seller :
  let o := Sample.offer "offer_1" "RPG" "seller_1" 4 100 in
  let o' := Sample.offer "offer_2" "RPG" "vendor_abc" 5 101 in
  stage_match [o; o'] "RPG" = [o; o']
  /\ sellerGroups [o; o'] "RPG" 42 = Err (ConversionFailure "abc")
  /\ getOffersTrueRoundRobin config [o; o'] 0 "RPG" 1 None (Some 42)
     = Err (ConversionFailure "abc").
Proof. repeat split; reflexivity. Qed.

(** ** The quality order *)

Lemma quality_cmp_antisym (a b : Offer) :
  quality_cmp b a = CompOpp (quality_cmp a b).
Proof.
  unfold quality_cmp.
  rewrite <- (Qcompare_antisym (rating b) (rating a)).
  rewrite (Z.compare_antisym (createdAt b) (createdAt a)).
  destruct (Qcompare (rating b) (rating a)); reflexivity.
Qed.

Lemma quality_leb_total (a b : Offer) :
  quality_leb a b = true \/ quality_leb b a = true.
Proof.
  unfold quality_leb. rewrite (quality_cmp_antisym a b).
  destruct (quality_cmp a b); simpl; auto.
Qed.

(** ** The quota *)

Lemma filter_of_map {A B : Type} (f : A -> B) (p : B -> bool) (l : list A) :
  filter p (map f l) = map f (filter (fun x => p (f x)) l).
Proof.
  induction l as [|x xs IH]; simpl; [reflexivity|].
  destruct (p (f x)); simpl; rewrite IH; reflexivity.
Qed.

Lemma with_draws_docs {K : Type} (rnd : nat -> K) (docs : list Offer) :
  map fst (with_draws rnd docs) = docs.
Proof.
  unfold with_draws. rewrite map_map. simpl.
  change (fun x : nat * Offer => snd x) with (@snd nat Offer).
  generalize 0%nat. induction docs as [|d ds IH]; intros s; simpl.
  - reflexivity.
  - rewrite IH. reflexivity.
Qed.

Lemma count_seller_app (s : string) (l l' : list Offer) :
  count_seller s (l ++ l') = (count_seller s l + count_seller s l')%nat.
Proof. unfold count_seller. rewrite filter_app, length_app. reflexivity. Qed.

Lemma count_seller_other (s : string) (l : list Offer) :
  Forall (fun o => sellerId o <> s) l -> count_seller s l = 0%nat.
Proof.
  unfold count_seller. induction 1 as [|o os Ho _ IH]; simpl; [reflexivity|].
  destruct (String.eqb_spec (sellerId o) s); [contradiction | exact IH].
Qed.

Lemma count_seller_le_length (s : string) (l : list Offer) :
  (count_seller s l <= List.length l)%nat.
Proof. apply filter_length_le. Qed.

Lemma count_seller_perm (s : string) (l l' : list Offer) :
  Permutation l l' -> count_seller s l = count_seller s l'.
Proof.
  intros H. unfold count_seller. apply Permutation_length.
  induction H; simpl.
  - constructor.
  - destruct (sellerId x =? s)%string; [apply perm_skip|]; assumption.
  - destruct (sellerId x =? s)%string, (sellerId y =? s)%string;
      try apply Permutation_refl. apply perm_swap.
  - eapply perm_trans; eassumption.
Qed.

Section Capped.
Context {K : Type}.
Variable q : nat.

(** Groups of distinct sellers, each of one seller and of at most [q]
    offers, put end to end: no seller has more than [q] offers. *)
Lemma count_seller_groups (s : string) (groups : list (Group K)) :
  NoDup (map group_id groups) ->
  Forall (fun g => Forall (fun o => sellerId o = group_id g) (members g)
                   /\ (List.length (members g) <= q)%nat) groups ->
  (count_seller s (flat_map members groups) <= q)%nat
  /\ (~ In s (map group_id groups) -> count_seller s (flat_map members groups) = 0%nat).
Proof.
  induction groups as [|g gs IH]; simpl; intros Hnd Hall.
  - split; [apply Nat.le_0_l | reflexivity].
  - inversion Hnd as [|? ? Hg Hgs]; subst.
    inversion Hall as [|? ? [Hone Hlen] Hrest]; subst.
    destruct (IH Hgs Hrest) as [IHle IHzero].
    rewrite count_seller_app.
    destruct (String.eqb_spec (group_id g) s) as [Heq|Hne].
    + subst s. rewrite (IHzero Hg). split.
      * pose proof (count_seller_le_length (group_id g) (members g)). lia.
      * intros Hn. exfalso. apply Hn. left. reflexivity.
    + rewrite (count_seller_other s (members g)).
      * split; [exact IHle|]. intros Hn. apply IHzero. tauto.
      * eapply Forall_impl; [|exact Hone]. simpl. intros o Ho. congruence.
Qed.

End Capped.

Lemma Forall_firstn_of {A : Type} (P : A -> Prop) (n : nat) (l : list A) :
  Forall P l -> Forall P (firstn n l).
Proof.
  revert l. induction n as [|n IH]; intros l H; simpl; [constructor|].
  destruct H; constructor; auto.
Qed.

Lemma slice_n_first {A : Type} (l : list A) (n : Z) :
  0 <= n -> slice_n l n = firstn (Z.to_nat n) l.
Proof.
  intros H. unfold slice_n. destruct (Z.leb_spec 0 n); [reflexivity | lia].
Qed.

Lemma quotaOf_le_request (cfg : Config) (maxPerSeller : option Z) :
  quotaOf cfg maxPerSeller <= js_or maxPerSeller (defaultMaxOffersPerSeller cfg).
Proof.
  unfold quotaOf.
  destruct (Z.ltb_spec (maxMaxOffersPerSeller cfg)
              (js_or maxPerSeller (defaultMaxOffersPerSeller cfg))); lia.
Qed.

Section Quota.
Variable collection : list Offer.
Variable num : Type.
Variable num_leb : num -> num -> bool.
Variable rnd : nat -> num.
Variable category : string.
Variable quota : Z.
Hypothesis quota_pos : 0 < quota.

Let sorted : list Offer := sort_by quality_leb (stage_match collection category).
Let capped : list (Group num) :=
  map (projectTop num quota) (stage_group (with_draws rnd sorted)).

Lemma quotaFlattened_groups :
  quotaFlattened collection num num_leb rnd category quota
  = flat_map members
      (sort_by (fun g h => num_leb (order_key g) (order_key h)) capped).
Proof. reflexivity. Qed.

Lemma capped_nodup : NoDup (map group_id capped).
Proof.
  unfold capped. rewrite map_map. simpl. apply stage_group_nodup.
Qed.

Lemma capped_members :
  Forall (fun g =>
            members g
            = firstn (Z.to_nat quota)
                (filter (fun o => (sellerId o =? group_id g)%string) sorted))
    capped.
Proof.
  unfold capped. apply Forall_map, Forall_forall. intros g Hg. simpl.
  destruct (stage_group_inv _ g Hg) as (d & _ & _ & _ & Hm).
  rewrite slice_n_first by lia. rewrite Hm.
  rewrite <- (filter_of_map fst (fun o => (sellerId o =? group_id g)%string)).
  rewrite with_draws_docs. reflexivity.
Qed.

Lemma capped_bounded :
  Forall (fun g => Forall (fun o => sellerId o = group_id g) (members g)
                   /\ (List.length (members g) <= Z.to_nat quota)%nat) capped.
Proof.
  eapply Forall_impl; [|exact capped_members].
  intros g ->. split.
  - apply Forall_firstn_of, Forall_forall. intros o Ho.
    apply filter_In in Ho as [_ Ho]. apply String.eqb_eq. exact Ho.
  - rewrite length_firstn. apply Nat.le_min_l.
Qed.

Lemma quota_count (s : string) :
  Z.of_nat (count_seller s
    (quotaFlattened collection num num_leb rnd category quota)) <= quota.
Proof.
  rewrite quotaFlattened_groups.
  rewrite (count_seller_perm s _ (flat_map members capped))
    by apply Permutation_flat_map, sort_by_perm.
  destruct (count_seller_groups (Z.to_nat quota) s capped capped_nodup capped_bounded)
    as [Hle _].
  lia.
Qed.

End Quota.

(** C2, as the code has it.  Let [quota] be the cap the method computes
    from [maxPerSeller]: the default when it is absent or 0, lowered to the
    configured maximum.  Whenever [quota] is positive, which covers every
    positive [maxPerSeller], it is at most the requested value, no seller has
    more than [quota] offers in the flattened sequence, and that sequence
    puts end to end groups of distinct sellers, each the first [quota] of the
    seller's offers in the order of rating descending, then creation time
    descending. *)
Theorem quota_caps_each_seller
  (cfg : Config) (collection : list Offer) (num : Type)
  (num_leb : num -> num -> bool) (rnd : nat -> num) (category : string)
  (maxPerSeller : option Z) (s : string) :
  let quota := quotaOf cfg maxPerSeller in
  let sorted := sort_by quality_leb (stage_match collection category) in
  0 < quota ->
  quota <= js_or maxPerSeller (defaultMaxOffersPerSeller cfg)
  /\ Z.of_nat (count_seller s
       (quotaFlattened collection num num_leb rnd category quota)) <= quota
  /\ Sorted (fun a b => quality_leb a b = true) sorted
  /\ exists groups : list (Group num),
       quotaFlattened collection num num_leb rnd category quota
       = flat_map members groups
       /\ NoDup (map group_id groups)
       /\ Forall (fun g =>
                    members g
                    = firstn (Z.to_nat quota)
                        (filter (fun o => (sellerId o =? group_id g)%string) sorted))
            groups.
Proof.
  intros quota sorted Hpos.
  split; [apply quotaOf_le_request|].
  split; [apply quota_count; exact Hpos|].
  split; [apply sort_by_sorted, quality_leb_total|].
  eexists. split; [apply quotaFlattened_groups|].
  split.
  - eapply Permutation_NoDup;
      [apply Permutation_map, Permutation_sym, sort_by_perm|].
    apply capped_nodup.
  - eapply Permutation_Forall; [apply Permutation_sym, sort_by_perm|].
    apply capped_members. exact Hpos.
Qed.

Lemma quota_caps_each_seller_witness :
  Z.of_nat (count_seller "seller_1"
    (quotaFlattened Sample.rpg Q Qle_bool Sample.draws "RPG" 2)) <= 2.
Proof.
  destruct (quota_caps_each_seller config Sample.rpg Q Qle_bool Sample.draws "RPG"
              (Some 2) "seller_1") as (_ & H & _).
  - reflexivity.
  - exact H.
Defined.

(** With [maxPerSeller] 0 the default 2 applies, and with [maxPerSeller] -3
    the [$slice] keeps the last 3 offers of a group: seller_1 has more
    offers in the flattened sequence than the value passed. *)
Lemma quota_cap_fails_for_zero_and_negative :
  ~ (Z.of_nat (count_seller "seller_1"
       (quotaFlattened Sample.rpg Q Qle_bool Sample.draws "RPG"
          (quotaOf config (Some 0)))) <= 0)
  /\ ~ (Z.of_nat (count_seller "seller_1"
          (quotaFlattened Sample.rpg Q Qle_bool Sample.draws "RPG"
             (quotaOf config (Some (-3))))) <= -3).
Proof.
  split; intros H; vm_compute in H; apply H; reflexivity.
Qed.

(** ** The hash buckets *)

Lemma field_cmp_antisym (a b : option Z) :
  field_cmp b a = CompOpp (field_cmp a b).
Proof.
  destruct a as [x|], b as [y|]; simpl; try reflexivity.
  apply Z.compare_antisym.
Qed.

Lemma hash_leb_total (a b : Offer) :
  hash_leb a b = true \/ hash_leb b a = true.
Proof.
  unfold hash_leb, hash_cmp.
  rewrite (field_cmp_antisym (sellerHash a) (sellerHash b)).
  rewrite (quality_cmp_antisym a b).
  destruct (field_cmp (sellerHash a) (sellerHash b)); simpl; auto.
  destruct (quality_cmp a b); simpl; auto.
Qed.

(** The number the bucket is computed from: the constant 1 for an
    identifier of at most 7 code points, the integer read from byte 7 on
    otherwise; there is no number, and the aggregation fails, when that
    suffix is no integer. *)
Lemma hashSuffix_number (id : string) :
  (s <- hashSuffix id ;; toInt s)
  = if strLenCP id <=? 7 then Ok 1 else s <- substr_from id 7 ;; toInt s.
Proof.
  unfold hashSuffix.
  destruct (Z.ltb_spec 7 (strLenCP id)), (Z.leb_spec (strLenCP id) 7);
    try lia; reflexivity.
Qed.

Lemma addHashFields_inv (seed : Z) (o d : Offer) :
  addHashFields seed o = Ok d ->
  exists n,
    (if strLenCP (sellerId o) <=? 7 then Ok 1
     else s <- substr_from (sellerId o) 7 ;; toInt s) = Ok n
    /\ sellerHash d = Some (mod_ ((n + seed) * (seed + 37)) 10000)
    /\ seedUsed d = Some seed
    /\ _id d = _id o /\ sellerId d = sellerId o /\ gameCategory d = gameCategory o
    /\ rating d = rating o /\ createdAt d = createdAt o.
Proof.
  unfold addHashFields, sellerHashOf. intros H.
  rewrite <- hashSuffix_number.
  destruct (hashSuffix (sellerId o)) as [s|e]; simpl in *; [|discriminate].
  destruct (toInt s) as [n|e]; simpl in *; [|discriminate].
  injection H as <-. exists n. simpl. repeat split.
Qed.

(** C3, as the code has it.  When every seller identifier of the category
    converts and the seed lies between -2^30 and 2^30, so that the store
    computes on integers and the product fits 64 bits, each candidate is
    given the bucket (f + seed) * (seed + 37) [$mod] 10000, where f is the
    constant 1 for an identifier of at most 7 code points and otherwise the
    integer that the identifier spells from byte 7 on; the candidates are
    then put in the order bucket ascending, rating descending, creation time
    descending, and the page is cut from that order by [$skip] and
    [$limit]. *)
Theorem hash_round_robin_buckets
  (cfg : Config) (collection : list Offer) (now : Z) (category : string) (pg : Z)
  (lim randomSeed : option Z) :
  hash_ids_ok collection category = true ->
  let seed := seedOf cfg now randomSeed in
  - 1073741824 <= seed <= 1073741824 ->
  let limit := js_or lim (defaultPageSize cfg) in
  let skip := (pg - 1) * limit in
  exists bucketed ordered,
    Forall2 (fun o d =>
               exists n,
                 (if strLenCP (sellerId o) <=? 7 then Ok 1
                  else s <- substr_from (sellerId o) 7 ;; toInt s) = Ok n
                 /\ sellerHash d = Some (mod_ ((n + seed) * (seed + 37)) 10000)
                 /\ seedUsed d = Some seed
                 /\ _id d = _id o /\ sellerId d = sellerId o
                 /\ gameCategory d = gameCategory o
                 /\ rating d = rating o /\ createdAt d = createdAt o)
      (stage_match collection category) bucketed
    /\ hashOrdered collection category seed = Ok ordered
    /\ Permutation ordered bucketed
    /\ Sorted (fun a b => hash_cmp a b <> Gt) ordered
    /\ getOffersHashRoundRobin cfg collection now category pg lim randomSeed
       = (check_skip skip ;;;
          check_limit limit ;;;
          Ok {| offers := stage_limit limit (stage_skip skip ordered);
                pagination := paginationOf pg limit (countDocuments collection category);
                seed := Some seed;
                maxPerSeller := None;
                method := "Hash-Based Round-Robin" |}).
Proof.
  intros Hids seed _ limit skip.
  destruct (hashOrdered_total collection category seed Hids) as (docs & Hd & Hord).
  exists docs, (sort_by hash_leb docs).
  split.
  { apply mapM_inv in Hd. eapply Forall2_impl; [|exact Hd].
    intros o d. apply addHashFields_inv. }
  split; [exact Hord|].
  split; [apply sort_by_perm|].
  split.
  { eapply Sorted_weaken; [|apply sort_by_sorted, hash_leb_total].
    intros a b. unfold hash_leb. destruct (hash_cmp a b); simpl; congruence. }
  unfold getOffersHashRoundRobin, hashPipeline. fold seed limit skip.
  rewrite Hord.
  destruct (check_skip skip); simpl; [|reflexivity].
  destruct (check_limit limit); reflexivity.
Qed.

Lemma hash_round_robin_buckets_witness :
  exists r,
    getOffersHashRoundRobin config Sample.rpg 0 "RPG" 1 (Some 3) (Some 42) = Ok r
    /\ map sellerHash (offers r) = [Some 3397; Some 3397; Some 3397].
Proof.
  destruct (hash_round_robin_buckets config Sample.rpg 0 "RPG" 1 (Some 3) (Some 42))
    as (bucketed & ordered & _ & Hord & _ & _ & Hr).
  - reflexivity.
  - simpl. lia.
  - vm_compute in Hord. injection Hord as <-.
    eexists. split; [exact Hr|]. reflexivity.
Defined.

(** An identifier of more than 7 characters gets no fallback: when what
    follows byte 7 is no integer, be it because the identifier has no
    numeric suffix (vendor_abc) or because its numeric suffix starts later
    (merchant_12), the candidate has no bucket and the call fails. *)
Lemma hash_fallback_not_for_non_numeric_suffix :
  let o := Sample.offer "offer_1" "RPG" "vendor_abc" 4 100 in
  let o' := Sample.offer "offer_2" "RPG" "merchant_12" 4 100 in
  sellerHashOf 42 o <> Ok (mod_ ((1 + 42) * (42 + 37)) 10000)
  /\ getOffersHashRoundRobin config [o] 0 "RPG" 1 None (Some 42)
     = Err (ConversionFailure "abc")
  /\ sellerHashOf 42 o' <> Ok (mod_ ((12 + 42) * (42 + 37)) 10000)
  /\ getOffersHashRoundRobin config [o'] 0 "RPG" 1 None (Some 42)
     = Err (ConversionFailure "t_12").
Proof.
  repeat split; try discriminate; reflexivity.
Qed.

(** ** The seed *)

Lemma seedOf_explicit (cfg : Config) (now s : Z) :
  s <> 0 -> seedOf cfg now (Some s) = s.
Proof. intros Hs. unfold seedOf. apply js_or_some. exact Hs. Qed.

Lemma seedOf_clock (cfg : Config) (now : Z) :
  seedOf cfg now None = now / (seedUpdateIntervalMinutes cfg * 60000).
Proof. reflexivity. Qed.

Lemma seedOf_default_window (now : Z) : seedOf config now None = now / 60000.
Proof. reflexivity. Qed.

(** Two calls in the same window compute the same seed. *)
Lemma seedOf_same_window (cfg : Config) (t1 t2 : Z) :
  t1 / seedInterval cfg = t2 / seedInterval cfg ->
  seedOf cfg t1 None = seedOf cfg t2 None.
Proof. unfold seedOf, js_or, floor_div. intros ->. reflexivity. Qed.

(** An explicit seed of 0 is falsy and gives way to the clock. *)
Lemma seedOf_zero (cfg : Config) (now : Z) :
  seedOf cfg now (Some 0) = seedOf cfg now None.
Proof. reflexivity. Qed.

(** C5, at the failing input.  Called with the explicit seed 0 in minute 82
    of the clock, both seeded methods compute and report the seed 82: the
    explicit seed is not used. *)
Theorem explicit_seed_zero_gives_way_to_clock :
  seedOf config 4920000 (Some 0) = 82
  /\ (exists r,
        getOffersHashRoundRobin config Sample.rpg 4920000 "RPG" 1 None (Some 0) = Ok r
        /\ seed r = Some 82)
  /\ (exists r,
        getOffersTrueRoundRobin config Sample.rpg 4920000 "RPG" 1 None (Some 0) = Ok r
        /\ seed r = Some 82).
Proof.
  split; [reflexivity|].
  split; eexists; (split; [vm_compute; reflexivity | reflexivity]).
Qed.

(** With a seed other than 0 the hash method does not read the clock. *)
Lemma hash_round_robin_ignores_clock (cfg : Config) (collection : list Offer)
  (now1 now2 : Z) (category : string) (pg : Z) (lim : option Z) (s : Z) :
  s <> 0 ->
  getOffersHashRoundRobin cfg collection now1 category pg lim (Some s)
  = getOffersHashRoundRobin cfg collection now2 category pg lim (Some s).
Proof.
  intros Hs. unfold getOffersHashRoundRobin.
  rewrite !seedOf_explicit by exact Hs. reflexivity.
Qed.

(** C9, at the failing input.  Two calls with the same category, seed 0,
    page 1 and page size 10 on the same collection, one in minute 0 and one
    in minute 82 of the clock, list the offers in different orders. *)
Theorem hash_round_robin_seed_zero_not_reproducible :
  exists r1 r2,
    getOffersHashRoundRobin config Sample.rpg 0 "RPG" 1 (Some 10) (Some 0) = Ok r1
    /\ getOffersHashRoundRobin config Sample.rpg 4920000 "RPG" 1 (Some 10) (Some 0)
       = Ok r2
    /\ map _id (offers r1) <> map _id (offers r2)
    /\ map sellerId (firstn 1 (offers r1)) = ["seller_1"]
    /\ map sellerId (firstn 1 (offers r2)) = ["seller_3"].
Proof.
  eexists; eexists.
  split; [vm_compute; reflexivity|].
  split; [vm_compute; reflexivity|].
  split; [discriminate|].
  split; reflexivity.
Qed.

(** ** Invalid pages *)

Lemma check_skip_negative (n : Z) : n < 0 -> check_skip n = Err (InvalidSkip n).
Proof.
  intros H. unfold check_skip. destruct (Z.ltb_spec n 0); [reflexivity | lia].
Qed.

Lemma js_or_default (lim : option Z) (d : Z) :
  lim = None \/ lim = Some 0 -> js_or lim d = js_or (Some d) d.
Proof.
  intros [-> | ->]; simpl; destruct (d =? 0); reflexivity.
Qed.

(** C7, as the code has it.  No method checks the page or the page size.
    An absent page size and a page size of 0 are replaced by the default
    page size (10 in the configuration): the call is the call with that
    page size.  With a page below 1 and a positive page size the offset
    (page-1)*limit is negative: the three methods that page in the store
    fail with the store's refusal of the negative [$skip], whatever the
    identifiers; the round-robin method returns, when its aggregation
    succeeds, the slice that [Array.slice] cuts for the negative offsets,
    with the page echoed in the pagination block, and fails with the
    aggregation otherwise. *)
Theorem negative_page_is_not_validated
  (cfg : Config) (collection : list Offer) (now : Z) (category : string) (pg : Z)
  (lim randomSeed quota : option Z)
  (num : Type) (num_of_Z : Z -> num) (num_add num_mul num_div : num -> num -> num)
  (num_leb : num -> num -> bool) (rnd : nat -> num) :
  let limit := js_or lim (defaultPageSize cfg) in
  let skip := (pg - 1) * limit in
  let default := Some (defaultPageSize cfg) in
  (lim = None \/ lim = Some 0 ->
   limit = defaultPageSize cfg
   /\ getOffersHashRoundRobin cfg collection now category pg lim randomSeed
      = getOffersHashRoundRobin cfg collection now category pg default randomSeed
   /\ getOffersTrueRoundRobin cfg collection now category pg lim randomSeed
      = getOffersTrueRoundRobin cfg collection now category pg default randomSeed
   /\ getOffersWeightedRandom cfg collection num num_of_Z num_add num_mul num_div
        num_leb rnd category pg lim
      = getOffersWeightedRandom cfg collection num num_of_Z num_add num_mul num_div
          num_leb rnd category pg default
   /\ getOffersQuotaBased cfg collection num num_leb rnd category pg lim quota
      = getOffersQuotaBased cfg collection num num_leb rnd category pg default quota)
  /\ defaultPageSize config = 10
  /\ (pg < 1 -> 0 < limit ->
      getOffersHashRoundRobin cfg collection now category pg lim randomSeed
      = Err (InvalidSkip skip)
      /\ getOffersWeightedRandom cfg collection num num_of_Z num_add num_mul num_div
           num_leb rnd category pg lim = Err (InvalidSkip skip)
      /\ getOffersQuotaBased cfg collection num num_leb rnd category pg lim quota
         = Err (InvalidSkip skip)
      /\ (rr_ids_ok collection category = true ->
          exists groups r,
            sellerGroups collection category (seedOf cfg now randomSeed) = Ok groups
            /\ getOffersTrueRoundRobin cfg collection now category pg lim randomSeed
               = Ok r
            /\ offers r = slice (roundRobinOffers groups) skip (skip + limit)
            /\ page (pagination r) = pg)
      /\ (rr_ids_ok collection category = false ->
          is_ok (getOffersTrueRoundRobin cfg collection now category pg lim
                   randomSeed) = false)).
Proof.
  intros limit skip default.
  split; [|split; [reflexivity|]].
  - intros Hlim.
    pose proof (js_or_default lim (defaultPageSize cfg) Hlim) as Hd.
    split.
    { unfold limit. destruct Hlim as [-> | ->]; reflexivity. }
    unfold getOffersHashRoundRobin, getOffersTrueRoundRobin, getOffersWeightedRandom,
      getOffersQuotaBased, default.
    rewrite Hd. repeat split; reflexivity.
  - intros Hpg Hlim.
    assert (Hskip : skip < 0) by (unfold skip; nia).
    split; [|split; [|split; [|split]]].
    + unfold getOffersHashRoundRobin, hashPipeline. fold limit skip.
      rewrite check_skip_negative by exact Hskip. reflexivity.
    + unfold getOffersWeightedRandom, weightedPipeline. fold limit skip.
      rewrite check_skip_negative by exact Hskip. reflexivity.
    + unfold getOffersQuotaBased, quotaPipeline. fold limit skip.
      rewrite check_skip_negative by exact Hskip. reflexivity.
    + intros Hids.
      destruct (sellerGroups_total collection category (seedOf cfg now randomSeed) Hids)
        as (keyed & _ & Hg).
      eexists; eexists. split; [exact Hg|].
      unfold getOffersTrueRoundRobin. fold limit skip. rewrite Hg. simpl.
      repeat split.
    + apply true_round_robin_fails_on_bad_id.
Qed.

Lemma negative_page_is_not_validated_witness :
  getOffersHashRoundRobin config Sample.rpg 0 "RPG" (-1) (Some 3) (Some 42)
  = Err (InvalidSkip (-6))
  /\ exists r,
       getOffersTrueRoundRobin config Sample.rpg 0 "RPG" (-1) (Some 3) (Some 42) = Ok r
       /\ map _id (offers r) = ["offer_1"; "offer_2"; "offer_9"].
Proof.
  destruct (negative_page_is_not_validated config Sample.rpg 0 "RPG" (-1) (Some 3)
              (Some 42) None Q inject_Z Qplus Qmult Qdiv Qle_bool Sample.draws)
    as (_ & _ & Hneg).
  destruct Hneg as (Hh & _ & _ & Hrr & _).
  - reflexivity.
  - reflexivity.
  - split; [exact Hh|].
    destruct Hrr as (groups & r & _ & Hr & _); [reflexivity|].
    exists r. split; [exact Hr|].
    vm_compute in Hr. injection Hr as <-. reflexivity.
Defined.

(** A negative page is not rejected by the round-robin method, which
    returns offers for page -1; and a page size of 0 is replaced by the
    default page size. *)
Lemma negative_page_accepted_and_zero_limit_replaced :
  (exists r,
      getOffersTrueRoundRobin config Sample.rpg 0 "RPG" (-1) (Some 3) (Some 42) = Ok r
      /\ map _id (offers r) = ["offer_1"; "offer_2"; "offer_9"]
      /\ page (pagination r) = -1)
  /\ (exists r,
      getOffersHashRoundRobin config Sample.rpg 0 "RPG" 1 (Some 0) (Some 42) = Ok r
      /\ limit (pagination r) = 10).
Proof.
  split; eexists; (split; [vm_compute; reflexivity|]); repeat split.
Qed.

(** ** The weighted scores *)

Lemma with_draws_nth {K : Type} (rnd : nat -> K) (docs : list Offer) (i : nat)
  (d : Offer * K) :
  nth_error (with_draws rnd docs) i = Some d ->
  nth_error docs i = Some (fst d) /\ snd d = rnd i.
Proof.
  unfold with_draws.
  assert (G : forall s,
    nth_error (map (fun p => (snd p, rnd (fst p)))
                 (combine (seq s (List.length docs)) docs)) i = Some d ->
    nth_error docs i = Some (fst d) /\ snd d = rnd (s + i)%nat).
  { revert i. induction docs as [|x xs IH]; intros i s H.
    - destruct i; discriminate.
    - destruct i as [|i]; simpl in H.
      + injection H as <-. simpl. rewrite Nat.add_0_r. split; reflexivity.
      + destruct (IH i (S s) H) as [Hn Hr]. simpl.
        rewrite Nat.add_succ_r. split; assumption. }
  apply G.
Qed.

Lemma filter_both {A : Type} (p q : A -> bool) (l : list A) :
  filter p (filter q l) = filter (fun x => (p x && q x)%bool) l.
Proof.
  induction l as [|x xs IH]; simpl; [reflexivity|].
  destruct (q x); simpl.
  - destruct (p x); simpl; rewrite IH; reflexivity.
  - rewrite andb_false_r. exact IH.
Qed.

(** The [$lookup] counts the seller's offers among those of the category. *)
Lemma sellerStatsCount_in_category (collection : list Offer) (category : string)
  (o : Offer) :
  In o (stage_match collection category) ->
  sellerStatsCount collection o
  = Z.of_nat (count_seller (sellerId o) (stage_match collection category)).
Proof.
  intros Ho. unfold sellerStatsCount, count_seller, stage_match in *.
  apply filter_In in Ho as [_ Hc]. apply String.eqb_eq in Hc.
  rewrite filter_both, Hc. reflexivity.
Qed.

(** C6. The weighted pipeline gives the candidate at each position of the
    category's stream the count of its seller's offers in the category, the
    draw made at that position and the score
    draw * 100 + 100 / (count + 1); whatever the arithmetic of the store's
    numbers, provided their comparison is total, the candidates are then in
    descending order of that score, and the page is cut from that order by
    [$skip] and [$limit]. *)
Theorem weighted_random_scores
  (cfg : Config) (collection : list Offer)
  (num : Type) (num_of_Z : Z -> num) (num_add num_mul num_div : num -> num -> num)
  (num_leb : num -> num -> bool) (rnd : nat -> num) (category : string) (pg : Z)
  (lim : option Z) :
  (forall a b, num_leb a b = true \/ num_leb b a = true) ->
  let limit := js_or lim (defaultPageSize cfg) in
  let skip := (pg - 1) * limit in
  let ordered :=
    weightedOrdered collection num num_of_Z num_add num_mul num_div num_leb rnd
      category in
  exists scored,
    map doc scored = stage_match collection category
    /\ (forall i sc,
          nth_error scored i = Some sc ->
          sellerOfferCount sc
          = Z.of_nat (count_seller (sellerId (doc sc))
                        (stage_match collection category))
          /\ randomScore sc = rnd i
          /\ weightedScore sc
             = num_add (num_mul (rnd i) (num_of_Z 100))
                       (num_div (num_of_Z 100) (num_of_Z (sellerOfferCount sc + 1))))
    /\ Permutation ordered scored
    /\ Sorted (fun a b => num_leb (weightedScore b) (weightedScore a) = true) ordered
    /\ getOffersWeightedRandom cfg collection num num_of_Z num_add num_mul num_div
         num_leb rnd category pg lim
       = (check_skip skip ;;;
          check_limit limit ;;;
          Ok {| offers := map doc (stage_limit limit (stage_skip skip ordered));
                pagination := paginationOf pg limit (countDocuments collection category);
                seed := None;
                maxPerSeller := None;
                method := "Weighted Random Distribution" |}).
Proof.
  intros Htotal limit skip ordered.
  exists (map (addScores collection num num_of_Z num_add num_mul num_div)
            (with_draws rnd (stage_match collection category))).
  split.
  { rewrite map_map. simpl. apply with_draws_docs. }
  split.
  { intros i sc Hsc. rewrite nth_error_map in Hsc.
    destruct (nth_error (with_draws rnd (stage_match collection category)) i)
      as [d|] eqn:Hd; [|discriminate].
    injection Hsc as <-. simpl.
    destruct (with_draws_nth rnd _ i d Hd) as [Hn ->].
    split; [|split; reflexivity].
    apply sellerStatsCount_in_category. eapply nth_error_In. exact Hn. }
  split; [apply sort_by_perm|].
  split.
  { apply (sort_by_sorted (score_geb num num_leb)). intros a b. apply Htotal. }
  unfold getOffersWeightedRandom, weightedPipeline. fold limit skip.
  destruct (check_skip skip); simpl; [|reflexivity].
  destruct (check_limit limit); reflexivity.
Qed.

Lemma Qle_bool_total (a b : Q) : Qle_bool a b = true \/ Qle_bool b a = true.
Proof.
  rewrite !Qle_bool_iff.
  destruct (Qlt_le_dec a b) as [H|H]; [left; apply Qlt_le_weak|right]; exact H.
Qed.

Lemma weighted_random_scores_witness :
  exists r,
    getOffersWeightedRandom config Sample.rpg Q inject_Z Qplus Qmult Qdiv Qle_bool
      Sample.draws "RPG" 1 (Some 3) = Ok r
    /\ map _id (offers r) = ["offer_10"; "offer_7"; "offer_3"].
Proof.
  destruct (weighted_random_scores config Sample.rpg Q inject_Z Qplus Qmult Qdiv
              Qle_bool Sample.draws "RPG" 1 (Some 3) Qle_bool_total)
    as (scored & _ & _ & _ & _ & Hr).
  eexists. split; [exact Hr|]. vm_compute. reflexivity.
Defined.

(** ** Currency conversion *)

Import PriceConversionSystem.

(** [toFixed(4)] moves a number by at most half a unit of the fourth
    fractional digit. *)
Lemma fixed_digits_close (m : positive) (e : Z) :
  (Qabs (Qmake (fixed_digits m e) 10000 - value_of m e) <= 1 # 20000)%Q.
Proof.
  apply Qabs_Qle_condition. unfold fixed_digits, value_of.
  destruct (Z.leb_spec 0 e) as [He|He].
  - assert (H : (Qmake (Z.pos m * 2 ^ e * 10000) 10000
                 - inject_Z (Z.pos m * 2 ^ e) == 0)%Q).
    { unfold Qeq, Qminus, Qplus, Qopp, inject_Z. simpl. lia. }
    rewrite H. split; discriminate.
  - set (d := 2 ^ (- e)).
    assert (Hd : 0 < d) by (apply Z.pow_pos_nonneg; lia).
    set (n := (2 * (Z.pos m * 10000) + d) / (2 * d)).
    assert (Hlo : 2 * d * n <= 2 * (Z.pos m * 10000) + d)
      by (apply Z.mul_div_le; lia).
    assert (Hhi : 2 * (Z.pos m * 10000) + d < 2 * d * Z.succ n)
      by (apply Z.mul_succ_div_gt; lia).
    unfold Qle, Qminus, Qplus, Qopp. cbn [Qnum Qden].
    rewrite !Pos2Z.inj_mul, Z2Pos.id by exact Hd.
    split; nia.
Qed.

(** C8, as the code has it.  For a currency other than the peg whose rate
    is cached, [convertToUSD] rounds the binary64 product of the amount and
    the rate to 4 fractional digits and [convertFromUSD] does the same with
    the product of the amount and the double 1 / rate; the peg currency is
    returned unchanged.  The rounding of a finite non-zero double x = m * 2^e
    yields the double nearest to n / 10^4 for the integer n with
    |n / 10^4 - x| <= 0.00005.  Nothing bounds the round trip by that
    tolerance. *)
Theorem conversion_rounds_binary_product
  (cache : Cache) (currency : string) (rate amount : float) :
  (currency =? "USD")%string = false ->
  cache_get cache currency = Some rate ->
  falsy rate = false ->
  convertToUSD cache amount "USD" = Converted amount
  /\ convertFromUSD cache amount "USD" = Converted amount
  /\ convertToUSD cache amount currency
     = Converted (parseFloat (toFixed4 (PrimFloat.mul amount rate)))
  /\ convertFromUSD cache amount currency
     = Converted (parseFloat (toFixed4
                    (PrimFloat.mul amount (PrimFloat.div one rate))))
  /\ forall x s m e,
       Prim2SF x = S754_finite s m e ->
       parseFloat (toFixed4 x) = nearest_double s (fixed_digits m e) 4
       /\ (Qabs (Qmake (fixed_digits m e) 10000 - value_of m e) <= 1 # 20000)%Q.
Proof.
  intros Hc Hr Hf.
  split; [reflexivity|].
  split; [reflexivity|].
  split; [unfold convertToUSD; rewrite Hc, Hr, Hf; reflexivity|].
  split; [unfold convertFromUSD; rewrite Hc, Hr, Hf; reflexivity|].
  intros x s m e Hx. split.
  - unfold toFixed4. rewrite Hx. reflexivity.
  - apply fixed_digits_close.
Qed.

(** The specification's example: 1000 PHP at the rate 0.0178 is 17.8. *)
Lemma conversion_rounds_binary_product_witness :
  convertToUSD initialCache (nearest_double false 1000 0) "PHP"
  = Converted (nearest_double false 178000 4).
Proof.
  destruct (conversion_rounds_binary_product initialCache "PHP"
              (nearest_double false 178 4) (nearest_double false 1000 0))
    as (_ & _ & H & _).
  - reflexivity.
  - reflexivity.
  - reflexivity.
  - rewrite H. vm_compute. reflexivity.
Defined.

(** 1001 IDR at the rate 0.0000635 becomes 0.0636 USD and comes back as
    1001.5748 IDR, more than half a unit away; and 2.50 MYR at the rate
    0.2247 becomes 0.5617 USD although the decimal product 0.56175 rounds to
    0.5618. *)
Lemma round_trip_outside_tolerance :
  (exists y q,
      roundTrip initialCache (nearest_double false 1001 0) "IDR" = Converted y
      /\ y = nearest_double false 10015748 4
      /\ exact_value y = Some q
      /\ ~ (Qabs (q - 1001) <= 1 # 10000)%Q
      /\ (1 # 2 < Qabs (q - 1001))%Q)
  /\ convertToUSD initialCache (nearest_double false 250 2) "MYR"
     = Converted (nearest_double false 5617 4)
  /\ Qfloor ((250 # 100) * (2247 # 10000) * 10000 + (1 # 2)) = 5618.
Proof.
  split.
  - eexists; eexists.
    split; [vm_compute; reflexivity|].
    split; [vm_compute; reflexivity|].
    split; [vm_compute; reflexivity|].
    split.
    + intros H. vm_compute in H. apply H. reflexivity.
    + vm_compute. reflexivity.
  - split; vm_compute; reflexivity.
Qed.

(** * Further properties of the marketplace *)

(** ** The share of a seller under a quota *)

Lemma count_seller_all (s : string) (l : list Offer) :
  Forall (fun o => sellerId o = s) l -> count_seller s l = List.length l.
Proof.
  unfold count_seller. induction 1 as [|o os Ho _ IH]; simpl; [reflexivity|].
  destruct (String.eqb_spec (sellerId o) s); [|contradiction].
  simpl. rewrite IH. reflexivity.
Qed.

Lemma count_seller_absent {K : Type} (s : string) (groups : list (Group K)) :
  Forall (fun g => Forall (fun o => sellerId o = group_id g) (members g)) groups ->
  ~ In s (map group_id groups) ->
  count_seller s (flat_map members groups) = 0%nat.
Proof.
  induction 1 as [|g gs Hg _ IH]; simpl; intros Hn; [reflexivity|].
  rewrite count_seller_app, IH by tauto.
  rewrite count_seller_other; [reflexivity|].
  eapply Forall_impl; [|exact Hg]. simpl. intros o Ho Hs.
  apply Hn. left. congruence.
Qed.

Lemma count_seller_own_group {K : Type} (groups : list (Group K)) (g : Group K) :
  NoDup (map group_id groups) ->
  Forall (fun g => Forall (fun o => sellerId o = group_id g) (members g)) groups ->
  In g groups ->
  count_seller (group_id g) (flat_map members groups) = List.length (members g).
Proof.
  induction groups as [|h hs IH]; simpl; intros Hnd Hall Hin; [contradiction|].
  inversion Hnd as [|? ? Hh Hhs]; subst.
  inversion Hall as [|? ? Hone Hrest]; subst.
  rewrite count_seller_app. destruct Hin as [->|Hin].
  - rewrite (count_seller_all _ _ Hone), (count_seller_absent _ _ Hrest Hh). lia.
  - rewrite IH by assumption.
    rewrite count_seller_other; [reflexivity|].
    eapply Forall_impl; [|exact Hone]. simpl. intros o Ho Hs.
    apply Hh. rewrite <- Ho, Hs. apply in_map. exact Hin.
Qed.

Lemma count_seller_zero_iff (s : string) (l : list Offer) :
  count_seller s l = 0%nat <-> ~ In s (map sellerId l).
Proof.
  unfold count_seller. induction l as [|o os IH]; simpl.
  - tauto.
  - destruct (String.eqb_spec (sellerId o) s); simpl.
    + split; [discriminate | intros H; exfalso; apply H; left; assumption].
    + rewrite IH. tauto.
Qed.

Lemma flat_map_shorter {A B : Type} (f g : A -> list B) (l : list A) :
  (forall x, (List.length (f x) <= List.length (g x))%nat) ->
  (List.length (flat_map f l) <= List.length (flat_map g l))%nat.
Proof.
  intros H. induction l as [|x xs IH]; simpl; [lia|].
  rewrite !length_app. specialize (H x). lia.
Qed.

Section QuotaShare.
Variable collection : list Offer.
Variable num : Type.
Variable num_leb : num -> num -> bool.
Variable rnd : nat -> num.
Variable category : string.
Variable quota : Z.
Hypothesis quota_pos : 0 < quota.

Lemma capped_covers (o : Offer) :
  In o (stage_match collection category) ->
  In (sellerId o)
    (map group_id
       (map (projectTop num quota)
          (stage_group (with_draws rnd
             (sort_by quality_leb (stage_match collection category)))))).
Proof.
  intros Ho. rewrite map_map. simpl.
  change (fun x : Group num => group_id x) with (@group_id num).
  rewrite stage_group_ids.
  apply (sort_by_in quality_leb) in Ho.
  rewrite <- (with_draws_docs rnd (sort_by quality_leb (stage_match collection category)))
    in Ho.
  apply in_map_iff in Ho as (d & <- & Hd).
  apply first_docs_covers. exact Hd.
Qed.

Lemma quota_share (s : string) :
  count_seller s (quotaFlattened collection num num_leb rnd category quota)
  = Nat.min (Z.to_nat quota) (count_seller s (stage_match collection category)).
Proof.
  rewrite quotaFlattened_groups.
  set (capped := map (projectTop num quota) _).
  rewrite (count_seller_perm s _ (flat_map members capped))
    by apply Permutation_flat_map, sort_by_perm.
  pose proof (capped_nodup collection num rnd category quota) as Hnd.
  pose proof (capped_bounded collection num rnd category quota quota_pos) as Hb.
  pose proof (capped_members collection num rnd category quota quota_pos) as Hm.
  fold capped in Hnd, Hb, Hm.
  assert (Hone : Forall (fun g : Group num =>
            Forall (fun o => sellerId o = group_id g) (members g)) capped).
  { eapply Forall_impl; [|exact Hb]. simpl. tauto. }
  destruct (in_dec string_dec s (map group_id capped)) as [Hin|Hout].
  - apply in_map_iff in Hin as (g & <- & Hg).
    rewrite (count_seller_own_group capped g Hnd Hone Hg).
    rewrite Forall_forall in Hm. rewrite (Hm g Hg), length_firstn.
    f_equal. fold (count_seller (group_id g)
                     (sort_by quality_leb (stage_match collection category))).
    apply count_seller_perm, sort_by_perm.
  - rewrite (count_seller_absent s capped Hone Hout).
    assert (Hz : count_seller s (stage_match collection category) = 0%nat).
    { apply count_seller_zero_iff. intros Hs.
      apply in_map_iff in Hs as (o & <- & Ho).
      apply Hout. unfold capped. apply capped_covers. exact Ho. }
    rewrite Hz, Nat.min_0_r. reflexivity.
Qed.

End QuotaShare.

(** X1. Under a positive quota every seller has in the flattened sequence
    exactly the smaller of the quota and the number of its offers in the
    category: no seller of the category is left out, and no seller with
    fewer offers than the quota loses one. *)
Theorem quota_gives_each_seller_its_share
  (collection : list Offer) (num : Type) (num_leb : num -> num -> bool)
  (rnd : nat -> num) (category : string) (quota : Z) (s : string) :
  0 < quota ->
  count_seller s (quotaFlattened collection num num_leb rnd category quota)
  = Nat.min (Z.to_nat quota) (count_seller s (stage_match collection category)).
Proof. intros Hq. apply quota_share. exact Hq. Qed.

Lemma quota_gives_each_seller_its_share_witness :
  count_seller "seller_3"
    (quotaFlattened Sample.rpg Q Qle_bool Sample.draws "RPG" 3) = 2%nat.
Proof.
  rewrite (quota_gives_each_seller_its_share Sample.rpg Q Qle_bool Sample.draws
             "RPG" 3 "seller_3"); [reflexivity | lia].
Defined.

(** ** What a page holds *)

Lemma NoDup_window {A : Type} (n k : nat) (l : list A) :
  NoDup l -> NoDup (firstn n (skipn k l)).
Proof.
  intros H. rewrite <- (firstn_skipn k l) in H.
  apply NoDup_app_remove_l in H.
  rewrite <- (firstn_skipn n (skipn k l)) in H.
  apply NoDup_app_remove_r in H. exact H.
Qed.

Lemma In_window {A : Type} (n k : nat) (l : list A) (x : A) :
  In x (firstn n (skipn k l)) -> In x l.
Proof.
  intros H. rewrite <- (firstn_skipn k l). apply in_or_app. right.
  rewrite <- (firstn_skipn n (skipn k l)). apply in_or_app. left. exact H.
Qed.

(** A window of a sequence that is, document for document, a rearrangement
    of the category's offers holds offers of the category, each once. *)
Lemma window_from_category (collection : list Offer) (category : string)
  (full : list Offer) (n k : nat) :
  NoDup (map _id collection) ->
  Permutation (map _id full) (map _id (stage_match collection category)) ->
  Forall (from_category collection category) full ->
  NoDup (map _id (firstn n (skipn k full)))
  /\ Forall (from_category collection category) (firstn n (skipn k full)).
Proof.
  intros Hnd Hperm Hall. split.
  - rewrite <- firstn_map, <- skipn_map. apply NoDup_window.
    eapply Permutation_NoDup; [apply Permutation_sym, Hperm|].
    unfold stage_match. apply (NoDup_map_filter (K:=unit)). exact Hnd.
  - apply Forall_forall. intros x Hx. rewrite Forall_forall in Hall.
    apply Hall. eapply In_window. exact Hx.
Qed.

Lemma stored_from_category (collection : list Offer) (category : string) :
  Forall (from_category collection category) (stage_match collection category).
Proof.
  apply Forall_forall. intros o Ho. unfold stage_match in Ho.
  apply filter_In in Ho as [Ho Hc]. apply String.eqb_eq in Hc.
  split; [exact Hc|]. exists o. repeat split. exact Ho.
Qed.

Section PageContents.
Variable cfg : Config.
Variable collection : list Offer.
Variable category : string.
Hypothesis ids_unique : NoDup (map _id collection).

Let good (r : SearchResult) : Prop :=
  NoDup (map _id (offers r))
  /\ Forall (from_category collection category) (offers r).

Lemma hash_page_contents (now pg : Z) (lim randomSeed : option Z) (r : SearchResult) :
  getOffersHashRoundRobin cfg collection now category pg lim randomSeed = Ok r ->
  good r.
Proof.
  unfold getOffersHashRoundRobin, hashPipeline, hashOrdered. intros H.
  destruct (check_skip _); simpl in H; [|discriminate].
  destruct (check_limit _); simpl in H; [|discriminate].
  destruct (mapM _ _) as [docs|e] eqn:Hd; simpl in H; [|discriminate].
  injection H as <-. simpl. unfold stage_limit, stage_skip.
  apply mapM_inv in Hd.
  assert (Hids : map _id docs = map _id (stage_match collection category)).
  { induction Hd as [|o d l l' Hod _ IH]; simpl; [reflexivity|].
    destruct (addHashFields_inv _ o d Hod) as (n & _ & _ & _ & Hid & _).
    rewrite Hid, IH. reflexivity. }
  assert (Hall : Forall (from_category collection category) docs).
  { pose proof (stored_from_category collection category) as Hs.
    induction Hd as [|o d l l' Hod _ IH]; constructor.
    - inversion Hs as [|? ? [Hc (o' & Ho' & Hi & Hse & Hr & Hcr)] _]; subst.
      destruct (addHashFields_inv _ o d Hod)
        as (n & _ & _ & _ & Hid & Hsel & Hcat & Hrat & Hcre).
      split; [congruence|]. exists o'. repeat split; congruence.
    - apply IH; [|inversion Hs; assumption].
      simpl in Hids. injection Hids as _ Hids. exact Hids. }
  apply window_from_category; try assumption.
  - rewrite <- Hids. apply Permutation_map, sort_by_perm.
  - eapply Permutation_Forall; [apply Permutation_sym, sort_by_perm | exact Hall].
Qed.

Lemma true_rr_page_contents (now pg : Z) (lim randomSeed : option Z)
  (r : SearchResult) :
  getOffersTrueRoundRobin cfg collection now category pg lim randomSeed = Ok r ->
  good r.
Proof.
  unfold getOffersTrueRoundRobin. intros H.
  destruct (sellerGroups _ _ _) as [groups|e] eqn:Hg; simpl in H; [|discriminate].
  injection H as <-. simpl. unfold slice.
  assert (Hp : Permutation (roundRobinOffers groups) (stage_match collection category)).
  { rewrite roundRobinOffers_interleave.
    eapply perm_trans; [apply interleave_perm|].
    eapply sellerGroups_flat. exact Hg. }
  apply window_from_category; try assumption.
  - apply Permutation_map. exact Hp.
  - eapply Permutation_Forall; [apply Permutation_sym, Hp|].
    apply stored_from_category.
Qed.

Section Randomised.
Variable num : Type.
Variable num_of_Z : Z -> num.
Variable num_add num_mul num_div : num -> num -> num.
Variable num_leb : num -> num -> bool.
Variable rnd : nat -> num.

Lemma weighted_page_contents (pg : Z) (lim : option Z) (r : SearchResult) :
  getOffersWeightedRandom cfg collection num num_of_Z num_add num_mul num_div
    num_leb rnd category pg lim = Ok r ->
  good r.
Proof.
  unfold getOffersWeightedRandom, weightedPipeline. intros H.
  destruct (check_skip _); simpl in H; [|discriminate].
  destruct (check_limit _); simpl in H; [|discriminate].
  injection H as <-. simpl. unfold stage_limit, stage_skip.
  rewrite <- firstn_map, <- skipn_map.
  assert (Hp : Permutation
            (map doc (weightedOrdered collection num num_of_Z num_add num_mul
                        num_div num_leb rnd category))
            (stage_match collection category)).
  { unfold weightedOrdered.
    eapply perm_trans; [apply Permutation_map, sort_by_perm|].
    rewrite map_map. simpl. rewrite with_draws_docs. apply Permutation_refl. }
  apply window_from_category; try assumption.
  - apply Permutation_map. exact Hp.
  - eapply Permutation_Forall; [apply Permutation_sym, Hp|].
    apply stored_from_category.
Qed.

Lemma slice_n_rest {A : Type} (l : list A) (n : Z) :
  exists rest, Permutation l (slice_n l n ++ rest).
Proof.
  unfold slice_n. destruct (0 <=? n).
  - exists (skipn (Z.to_nat n) l). rewrite firstn_skipn. apply Permutation_refl.
  - exists (firstn (List.length l - Z.to_nat (- n)) l).
    rewrite <- (firstn_skipn (List.length l - Z.to_nat (- n)) l) at 1.
    apply Permutation_app_comm.
Qed.

Lemma capped_rest (q : Z) (groups : list (Group num)) :
  exists rest,
    Permutation (flat_map members groups)
      (flat_map members (map (projectTop num q) groups) ++ rest).
Proof.
  induction groups as [|g gs [rest IH]]; simpl.
  - exists []. constructor.
  - destruct (slice_n_rest (members g) q) as [rest_g Hg].
    exists (rest_g ++ rest).
    eapply perm_trans; [apply Permutation_app; [exact Hg | exact IH]|].
    rewrite <- !app_assoc. apply Permutation_app_head.
    rewrite !app_assoc. apply Permutation_app_tail, Permutation_app_comm.
Qed.

Lemma quota_page_contents (pg : Z) (lim quota : option Z) (r : SearchResult) :
  getOffersQuotaBased cfg collection num num_leb rnd category pg lim quota = Ok r ->
  good r.
Proof.
  unfold getOffersQuotaBased, quotaPipeline. intros H.
  destruct (check_skip _); simpl in H; [|discriminate].
  destruct (check_limit _); simpl in H; [|discriminate].
  injection H as <-. unfold good. simpl. unfold stage_limit, stage_skip.
  set (full := quotaFlattened _ _ _ _ _ _).
  destruct (capped_rest (quotaOf cfg quota)
              (stage_group (with_draws rnd
                 (sort_by quality_leb (stage_match collection category)))))
    as [rest Hrest].
  assert (Hp : Permutation (full ++ rest) (stage_match collection category)).
  { eapply perm_trans; [|apply (sort_by_perm quality_leb)].
    rewrite <- (with_draws_docs rnd
                  (sort_by quality_leb (stage_match collection category))) at 1.
    eapply perm_trans; [|apply stage_group_flat].
    eapply perm_trans; [|apply Permutation_sym, Hrest].
    apply Permutation_app_tail. unfold full. rewrite quotaFlattened_groups.
    apply Permutation_flat_map, sort_by_perm. }
  split.
  - rewrite <- firstn_map, <- skipn_map. apply NoDup_window.
    apply (NoDup_app_remove_r _ (map _id rest)). rewrite <- map_app.
    eapply Permutation_NoDup; [apply Permutation_map; apply Permutation_sym, Hp|].
    unfold stage_match. apply (NoDup_map_filter (K:=unit)). exact ids_unique.
  - apply Forall_forall. intros x Hx. apply In_window in Hx.
    pose proof (stored_from_category collection category) as Hs.
    rewrite Forall_forall in Hs. apply Hs.
    eapply Permutation_in; [exact Hp|]. apply in_or_app. left. exact Hx.
Qed.

End Randomised.

End PageContents.

(** X2. Whatever strategy returned it, a page holds only offers of the
    requested category taken from the collection, and no offer twice
    (identifiers are unique in a collection). *)
Theorem page_holds_category_offers_once
  (cfg : Config) (collection : list Offer) (category : string) (now pg : Z)
  (lim randomSeed quota : option Z)
  (num : Type) (num_of_Z : Z -> num) (num_add num_mul num_div : num -> num -> num)
  (num_leb : num -> num -> bool) (rnd : nat -> num) (r : SearchResult) :
  NoDup (map _id collection) ->
  getOffersHashRoundRobin cfg collection now category pg lim randomSeed = Ok r
  \/ getOffersTrueRoundRobin cfg collection now category pg lim randomSeed = Ok r
  \/ getOffersWeightedRandom cfg collection num num_of_Z num_add num_mul num_div
       num_leb rnd category pg lim = Ok r
  \/ getOffersQuotaBased cfg collection num num_leb rnd category pg lim quota = Ok r ->
  NoDup (map _id (offers r))
  /\ Forall (from_category collection category) (offers r).
Proof.
  intros Hnd [H|[H|[H|H]]].
  - eapply hash_page_contents; eassumption.
  - eapply true_rr_page_contents; eassumption.
  - eapply weighted_page_contents; eassumption.
  - eapply quota_page_contents; eassumption.
Qed.

Lemma page_holds_category_offers_once_witness :
  exists r,
    getOffersQuotaBased config Sample.rpg Q Qle_bool Sample.draws "RPG" 1 (Some 4)
      (Some 1) = Ok r
    /\ NoDup (map _id (offers r))
    /\ Forall (from_category Sample.rpg "RPG") (offers r).
Proof.
  eexists. split; [vm_compute; reflexivity|].
  apply (page_holds_category_offers_once config Sample.rpg "RPG" 0 1 (Some 4) None
           (Some 1) Q inject_Z Qplus Qmult Qdiv Qle_bool Sample.draws).
  - repeat constructor; simpl; intuition discriminate.
  - right. right. right. vm_compute. reflexivity.
Defined.

(** ** Pages put end to end *)

Lemma windows_cover {A : Type} (k n : nat) (l : list A) :
  (List.length l <= n * k)%nat ->
  flat_map (fun i => firstn k (skipn (i * k) l)) (seq 0 n) = l.
Proof.
  revert l. induction n as [|n IH]; intros l Hlen; simpl.
  - destruct l; [reflexivity | simpl in Hlen; lia].
  - rewrite <- seq_shift, flat_map_of_map.
    rewrite (flat_map_ext _ (fun i => firstn k (skipn (i * k) (skipn k l)))).
    + rewrite IH by (rewrite length_skipn; simpl in Hlen; lia).
      apply firstn_skipn.
    + intros i. rewrite skipn_skipn. f_equal. f_equal. simpl. lia.
Qed.


(** ** One order, whatever the sort *)

Section OneOrder.
Context {A : Type} (le : A -> A -> Prop).
Hypothesis le_trans : forall x y z, le x y -> le y z -> le x z.

Lemma sorted_strongly (l : list A) : Sorted le l -> StronglySorted le l.
Proof.
  induction 1 as [|a l _ IH Hhd]; constructor; [exact IH|].
  destruct Hhd as [|b l' Hab]; [constructor|].
  inversion IH as [|? ? _ Hall]; subst.
  constructor; [exact Hab|].
  eapply Forall_impl; [|exact Hall]. intros c Hc. eapply le_trans; eassumption.
Qed.

(** Two sorted arrangements of the same elements are the same list when no
    two different elements are equivalent for the order. *)
Lemma sorted_arrangement_unique (l l' : list A) :
  (forall x y, In x l -> In y l -> le x y -> le y x -> x = y) ->
  Permutation l l' -> Sorted le l -> Sorted le l' -> l = l'.
Proof.
  intros Hties Hperm Hl Hl'.
  apply sorted_strongly in Hl. apply sorted_strongly in Hl'.
  revert l' Hperm Hl'. induction Hl as [|x xs Hxs IH Hx]; intros l' Hperm Hl'.
  - apply Permutation_nil in Hperm. symmetry. exact Hperm.
  - destruct Hl' as [|y ys Hys Hy].
    + apply Permutation_sym, Permutation_nil in Hperm. discriminate.
    + assert (Hxy : x = y).
      { assert (Hyin : In y (x :: xs))
          by (eapply Permutation_in; [apply Permutation_sym; exact Hperm | left; reflexivity]).
        assert (Hxin : In x (y :: ys))
          by (eapply Permutation_in; [exact Hperm | left; reflexivity]).
        destruct Hyin as [Heq|Hyin]; [exact Heq|].
        destruct Hxin as [Heq|Hxin]; [symmetry; exact Heq|].
        rewrite Forall_forall in Hx, Hy.
        apply Hties; [left; reflexivity | right; exact Hyin | apply Hx, Hyin
                     | apply Hy, Hxin]. }
      subst y. f_equal. apply IH.
      * intros a b Ha Hb. apply Hties; right; assumption.
      * eapply Permutation_cons_inv. exact Hperm.
      * exact Hys.
Qed.

End OneOrder.

Lemma Qcompare_trans_not_gt (p q r : Q) :
  Qcompare p q <> Gt -> Qcompare q r <> Gt -> Qcompare p r <> Gt.
Proof.
  rewrite <- !Qle_alt. apply Qle_trans.
Qed.











(** ** The hash order is an order of sellers *)




Section HashOrder.
Variable collection : list Offer.
Variable category : string.
Variable seed : Z.
Variable ordered : list Offer.
Hypothesis ordered_ok : hashOrdered collection category seed = Ok ordered.




End HashOrder.



(** ** Fairness of the interleaving *)

Lemma count_seller_prefix (s : string) (j : nat) (l : list Offer) :
  (count_seller s (firstn j l) <= count_seller s l)%nat.
Proof.
  rewrite <- (firstn_skipn j l) at 2. rewrite count_seller_app. lia.
Qed.

Lemma count_seller_pick (s : string) (round : nat) (g : Group Z) :
  Forall (fun o => sellerId o = group_id g) (members g) ->
  count_seller s (pick round g)
  = if ((group_id g =? s)%string && (round <? List.length (members g))%nat)%bool
    then 1%nat else 0%nat.
Proof.
  intros Hone. unfold pick.
  destruct (nth_error (members g) round) as [o|] eqn:Ho.
  - assert (Hlt : (round < List.length (members g))%nat)
      by (apply nth_error_Some; congruence).
    apply Nat.ltb_lt in Hlt. rewrite Hlt, andb_true_r.
    rewrite Forall_forall in Hone.
    rewrite <- (Hone o (nth_error_In _ _ Ho)).
    unfold count_seller. simpl. destruct (sellerId o =? s)%string; reflexivity.
  - apply nth_error_None in Ho. apply Nat.ltb_ge in Ho.
    rewrite Ho, andb_false_r. reflexivity.
Qed.

(** In a round a seller has one offer if the round is below the number of
    its offers, and none otherwise. *)
Lemma count_seller_round (s : string) (round : nat) (groups : list (Group Z)) :
  NoDup (map group_id groups) ->
  Forall (fun g => Forall (fun o => sellerId o = group_id g) (members g)) groups ->
  count_seller s (flat_map (pick round) groups)
  = if (round <? count_seller s (flat_map members groups))%nat then 1%nat else 0%nat.
Proof.
  induction groups as [|g gs IH]; simpl; intros Hnd Hall; [reflexivity|].
  inversion Hnd as [|? ? Hg Hgs]; subst.
  inversion Hall as [|? ? Hone Hrest]; subst.
  rewrite !count_seller_app, (count_seller_pick s round g Hone), (IH Hgs Hrest).
  destruct (String.eqb_spec (group_id g) s) as [Heq|Hne]; simpl.
  - subst s. rewrite (count_seller_absent _ _ Hrest Hg), (count_seller_all _ _ Hone).
    rewrite !Nat.add_0_r. simpl.
    destruct (round <? List.length (members g))%nat; reflexivity.
  - rewrite (count_seller_other s (members g)); [reflexivity|].
    eapply Forall_impl; [|exact Hone]. simpl. intros o Ho. congruence.
Qed.

Lemma count_seller_rounds (s : string) (groups : list (Group Z)) (a r : nat) :
  NoDup (map group_id groups) ->
  Forall (fun g => Forall (fun o => sellerId o = group_id g) (members g)) groups ->
  count_seller s (flat_map (fun round => flat_map (pick round) groups) (seq a r))
  = (Nat.min (a + r) (count_seller s (flat_map members groups))
     - Nat.min a (count_seller s (flat_map members groups)))%nat.
Proof.
  intros Hnd Hall. revert a. induction r as [|r IH]; intros a; simpl.
  - rewrite Nat.add_0_r, Nat.sub_diag. reflexivity.
  - rewrite count_seller_app, IH, (count_seller_round s a groups Hnd Hall).
    destruct (Nat.ltb_spec a (count_seller s (flat_map members groups))); lia.
Qed.

(** A prefix of rounds put end to end is some whole rounds and the start of
    the next one. *)
Lemma prefix_of_rounds {A : Type} (round : nat -> list A) (k a m : nat) :
  exists r j,
    firstn k (flat_map round (seq a m))
    = flat_map round (seq a r) ++ firstn j (round (a + r)%nat).
Proof.
  revert k a. induction m as [|m IH]; intros k a; simpl.
  - exists 0%nat, 0%nat. rewrite firstn_nil. reflexivity.
  - rewrite firstn_app.
    destruct (Nat.le_gt_cases k (List.length (round a))) as [Hle|Hgt].
    + exists 0%nat, k. simpl. rewrite Nat.add_0_r.
      replace (k - List.length (round a))%nat with 0%nat by lia.
      rewrite app_nil_r. reflexivity.
    + destruct (IH (k - List.length (round a))%nat (S a)) as (r & j & Hr).
      exists (S r), j. simpl. rewrite firstn_all2 by lia.
      rewrite Hr, <- app_assoc, Nat.add_succ_r. reflexivity.
Qed.

Lemma interleave_prefix_counts (groups : list (Group Z)) (k : nat) :
  NoDup (map group_id groups) ->
  Forall (fun g => Forall (fun o => sellerId o = group_id g) (members g)) groups ->
  exists r, forall s,
    (Nat.min r (count_seller s (flat_map members groups))
     <= count_seller s (firstn k (interleave groups))
     <= Nat.min (S r) (count_seller s (flat_map members groups)))%nat.
Proof.
  intros Hnd Hall. unfold interleave.
  destruct (prefix_of_rounds (fun round => flat_map (pick round) groups) k 0
              (list_max (map (fun g => List.length (members g)) groups)))
    as (r & j & ->).
  exists r. intros s.
  rewrite count_seller_app, (count_seller_rounds s groups 0 r Hnd Hall).
  pose proof (count_seller_prefix s j (flat_map (pick (0 + r)) groups)) as Hj.
  rewrite (count_seller_round s (0 + r) groups Hnd Hall) in Hj.
  change (0 + r)%nat with r in *.
  destruct (Nat.ltb_spec r (count_seller s (flat_map members groups))); lia.
Qed.

(** X5. Every prefix of the round-robin sequence is fair: there is a round
    number r such that each seller has shown at least min(r, n) and at most
    min(r + 1, n) of its n offers.  Hence no seller is ever more than one
    offer ahead of a seller that still has offers to show. *)
Theorem true_round_robin_prefix_fair
  (collection : list Offer) (category : string) (seed : Z) (groups : list (Group Z))
  (k : nat) :
  sellerGroups collection category seed = Ok groups ->
  let shown s := count_seller s (firstn k (roundRobinOffers groups)) in
  let owned s := count_seller s (stage_match collection category) in
  (exists r, forall s,
      (Nat.min r (owned s) <= shown s <= Nat.min (S r) (owned s))%nat)
  /\ (forall s t, (shown t < owned t)%nat -> (shown s <= shown t + 1)%nat).
Proof.
  intros Hg shown owned.
  assert (Hone : Forall (fun g : Group Z =>
            Forall (fun o => sellerId o = group_id g) (members g)) groups).
  { eapply Forall_impl; [|exact (sellerGroups_well _ _ _ _ Hg)].
    intros g [_ H]. exact H. }
  destruct (interleave_prefix_counts groups k (sellerGroups_nodup _ _ _ _ Hg) Hone)
    as (r & Hr).
  assert (Hr' : forall s,
    (Nat.min r (owned s) <= shown s <= Nat.min (S r) (owned s))%nat).
  { intros s. unfold shown, owned. rewrite roundRobinOffers_interleave.
    rewrite <- (count_seller_perm s _ _ (sellerGroups_flat _ _ _ _ Hg)). apply Hr. }
  split; [exists r; exact Hr'|].
  intros s t Ht. pose proof (Hr' s). pose proof (Hr' t). lia.
Qed.

Lemma true_round_robin_prefix_fair_witness :
  exists groups,
    sellerGroups Sample.rpg "RPG" 42 = Ok groups
    /\ map sellerId (firstn 5 (roundRobinOffers groups))
       = ["seller_1"; "seller_2"; "seller_3"; "seller_1"; "seller_2"]
    /\ forall s t,
         (count_seller t (firstn 5 (roundRobinOffers groups))
          < count_seller t (stage_match Sample.rpg "RPG"))%nat ->
         (count_seller s (firstn 5 (roundRobinOffers groups))
          <= count_seller t (firstn 5 (roundRobinOffers groups)) + 1)%nat.
Proof.
  eexists. split; [vm_compute; reflexivity|].
  split; [reflexivity|].
  eapply (true_round_robin_prefix_fair Sample.rpg "RPG" 42). vm_compute. reflexivity.
Defined.

(** * Further properties: seeding, statistics and prices *)

Import Seeding.

(** ** Populating the collection *)












Lemma arrayElement_some {A : Type} (arr : list A) (pick : nat) :
  arr <> [] -> exists x, arrayElement arr pick = Some x.
Proof.
  intros Hne. unfold arrayElement.
  destruct (nth_error arr (pick mod List.length arr)) as [x|] eqn:Hx; [eauto|].
  apply nth_error_None in Hx.
  assert (List.length arr <> 0)%nat by (destruct arr; [congruence | discriminate]).
  pose proof (Nat.mod_upper_bound pick (List.length arr)). lia.
Qed.


Lemma seedLoop_total (cats sellerIds : list string) (draws : nat -> Draw)
  (positions : list nat) :
  cats <> [] -> sellerIds <> [] ->
  exists coll, seedLoop cats sellerIds draws positions = Some coll.
Proof.
  intros Hc Hs. induction positions as [|i rest [os IH]]; simpl.
  - eexists; reflexivity.
  - unfold seedOffer.
    destruct (arrayElement_some cats (draw_category (draws i)) Hc) as [c ->].
    destruct (arrayElement_some sellerIds (draw_seller (draws i)) Hs) as [s ->].
    rewrite IH. eexists; reflexivity.
Qed.




(** ** Seller statistics *)

Lemma sum_permutation (l l' : list Z) :
  Permutation l l' -> fold_right Z.add 0 l = fold_right Z.add 0 l'.
Proof. induction 1; simpl; lia. Qed.

Lemma sum_app (l l' : list Z) :
  fold_right Z.add 0 (l ++ l') = fold_right Z.add 0 l + fold_right Z.add 0 l'.
Proof. induction l as [|x xs IH]; simpl; lia. Qed.

Lemma sum_over_groups {K : Type} (f : Offer -> Z) (groups : list (Group K)) :
  fold_right Z.add 0
    (map (fun g => fold_right Z.add 0 (map f (members g))) groups)
  = fold_right Z.add 0 (map f (flat_map members groups)).
Proof.
  induction groups as [|g gs IH]; simpl; [reflexivity|].
  rewrite map_app, sum_app, IH. reflexivity.
Qed.

Lemma length_as_sum {A : Type} (l : list A) :
  Z.of_nat (List.length l) = fold_right Z.add 0 (map (fun _ => 1) l).
Proof.
  induction l as [|x xs IH]; [reflexivity|].
  cbn [List.length map fold_right]. rewrite Nat2Z.inj_succ. lia.
Qed.

Section SellerStats.
Variable num : Type.
Variable avg : list Q -> num.
Variable collection : list Offer.
Variable category : option string.

Let matched : list Offer := statsMatch collection category.
Let docs : list (Offer * unit) := map (fun o => (o, tt)) matched.
Let by_count (a b : SellerStat num) : bool := offerCount b <=? offerCount a.

Lemma stats_permutation :
  Permutation (getSellerStats num avg collection category)
    (map (statOf num avg) (stage_group docs)).
Proof. unfold getSellerStats. apply sort_by_perm. Qed.

Lemma stats_group_members (g : Group unit) :
  In g (stage_group docs) ->
  members g = filter (fun o => (sellerId o =? group_id g)%string) matched
  /\ members g <> []
  /\ In (group_id g) (map sellerId matched).
Proof.
  intros Hg.
  destruct (stage_group_inv docs g Hg) as (d & Hd & Hid & _ & Hm).
  assert (Heq : members g
                = filter (fun o => (sellerId o =? group_id g)%string) matched).
  { rewrite Hm. unfold docs. rewrite filter_of_map, map_map. simpl. apply map_id. }
  split; [exact Heq|]. split.
  - pose proof (stage_group_well docs) as Hw. rewrite Forall_forall in Hw.
    apply (Hw g Hg).
  - rewrite Hid. unfold docs in Hd. apply in_map_iff in Hd as (o & <- & Ho).
    simpl. apply in_map, Ho.
Qed.

Lemma stats_cover (o : Offer) :
  In o matched -> In (sellerId o) (map group_id (stage_group docs)).
Proof.
  intros Ho.
  assert (Hin : In o (flat_map members (stage_group docs))).
  { eapply Permutation_in; [apply Permutation_sym, stage_group_flat|].
    unfold docs. rewrite map_map. simpl. rewrite map_id. exact Ho. }
  apply in_flat_map in Hin as (g & Hg & Hog).
  destruct (stats_group_members g Hg) as (Hm & _).
  rewrite Hm in Hog. apply filter_In in Hog as [_ Heq].
  apply String.eqb_eq in Heq. rewrite Heq. apply in_map, Hg.
Qed.

End SellerStats.

(** X7. The statistics account for every offer of the selection once:
    there is one line per seller that has an offer there and none for
    another seller; a line counts the seller's offers, at least one, and
    sums their stock and averages their prices and ratings; the counts add
    up to the number of offers selected and the stocks to their total
    stock; and no line has more offers than the line before it. *)
Theorem seller_stats_account_for_every_offer
  (num : Type) (avg : list Q -> num) (collection : list Offer)
  (category : option string) :
  let matched := statsMatch collection category in
  let stats := getSellerStats num avg collection category in
  let of_seller s := filter (fun o => (sellerId o =? s)%string) matched in
  NoDup (map stat_id stats)
  /\ (forall s, In s (map stat_id stats) <-> In s (map sellerId matched))
  /\ Forall (fun st =>
               offerCount st = Z.of_nat (count_seller (stat_id st) matched)
               /\ 1 <= offerCount st
               /\ totalStock st = fold_right Z.add 0 (map stock (of_seller (stat_id st)))
               /\ avgPrice st = avg (map price (of_seller (stat_id st)))
               /\ avgRating st = avg (map rating (of_seller (stat_id st))))
       stats
  /\ fold_right Z.add 0 (map offerCount stats) = Z.of_nat (List.length matched)
  /\ fold_right Z.add 0 (map totalStock stats)
     = fold_right Z.add 0 (map stock matched)
  /\ Sorted (fun a b => offerCount b <= offerCount a) stats.
Proof.
  intros matched stats of_seller.
  set (docs := map (fun o => (o, tt)) matched).
  pose proof (stats_permutation num avg collection category) as Hperm.
  fold matched docs stats in Hperm.
  assert (Hids : map stat_id (map (statOf num avg) (stage_group docs))
                 = map group_id (stage_group docs)).
  { rewrite map_map. reflexivity. }
  assert (Hflat : Permutation (flat_map members (stage_group docs)) matched).
  { eapply perm_trans; [apply stage_group_flat|].
    unfold docs. rewrite map_map. simpl. rewrite map_id. apply Permutation_refl. }
  split.
  { eapply Permutation_NoDup; [apply Permutation_sym, Permutation_map, Hperm|].
    rewrite Hids. apply stage_group_nodup. }
  split.
  { intros s. split; intros Hs.
    - apply (Permutation_in _ (Permutation_map stat_id Hperm)) in Hs.
      rewrite Hids in Hs. apply in_map_iff in Hs as (g & <- & Hg).
      apply (stats_group_members collection category g Hg).
    - apply (Permutation_in _ (Permutation_sym (Permutation_map stat_id Hperm))).
      rewrite Hids. apply in_map_iff in Hs as (o & <- & Ho).
      apply (stats_cover collection category o Ho). }
  split.
  { apply Forall_forall. intros st Hst.
    apply (Permutation_in _ Hperm) in Hst.
    apply in_map_iff in Hst as (g & <- & Hg).
    destruct (stats_group_members collection category g Hg) as (Hm & Hne & _).
    fold matched in Hm. unfold statOf. simpl. rewrite Hm.
    repeat split; try reflexivity.
    rewrite <- Hm. destruct (members g); [congruence | simpl List.length; lia]. }
  split.
  { rewrite (sum_permutation _ _ (Permutation_map offerCount Hperm)).
    rewrite map_map. simpl.
    rewrite (map_ext _ (fun g => fold_right Z.add 0 (map (fun _ => 1) (members g))))
      by (intros g; apply length_as_sum).
    rewrite sum_over_groups.
    rewrite (sum_permutation _ _ (Permutation_map _ Hflat)).
    symmetry. apply length_as_sum. }
  split.
  { rewrite (sum_permutation _ _ (Permutation_map totalStock Hperm)).
    rewrite map_map. simpl. rewrite sum_over_groups.
    apply sum_permutation, Permutation_map, Hflat. }
  unfold stats, getSellerStats.
  eapply Sorted_weaken; [|apply sort_by_sorted].
  - intros a b H. apply Z.leb_le in H. exact H.
  - intros a b. destruct (Z.le_ge_cases (offerCount a) (offerCount b)) as [H|H];
      apply Z.leb_le in H; auto.
Qed.

Import PriceConversionSystem PriceStore Repricing.

(** ** The rate cache *)

Lemma cache_get_set (c c' : string) (r : float) (m : Cache) :
  cache_get (cache_set c r m) c'
  = if (c =? c')%string then Some r else cache_get m c'.
Proof.
  induction m as [|[k v] rest IH]; simpl.
  - reflexivity.
  - destruct (String.eqb_spec k c) as [->|Hkc]; simpl.
    + destruct (c =? c')%string; reflexivity.
    + rewrite IH. destruct (String.eqb_spec k c') as [->|Hkc'].
      * destruct (String.eqb_spec c c') as [->|_]; [contradiction | reflexivity].
      * reflexivity.
Qed.

Lemma cache_set_keys (c k : string) (r : float) (m : Cache) :
  In k (map fst (cache_set c r m)) <-> k = c \/ In k (map fst m).
Proof.
  induction m as [|[k' v] rest IH]; simpl.
  - intuition congruence.
  - destruct (String.eqb_spec k' c) as [->|Hne]; simpl; [intuition congruence|].
    rewrite IH. intuition congruence.
Qed.

Lemma cache_set_nodup (c : string) (r : float) (m : Cache) :
  NoDup (map fst m) -> NoDup (map fst (cache_set c r m)).
Proof.
  induction m as [|[k v] rest IH]; simpl; intros Hnd.
  - constructor; [tauto | constructor].
  - inversion Hnd as [|? ? Hk Hrest]; subst.
    destruct (String.eqb_spec k c) as [->|Hne]; simpl.
    + constructor; assumption.
    + constructor; [|apply IH, Hrest].
      rewrite cache_set_keys. intros [->|Hin]; [apply Hne; reflexivity | tauto].
Qed.

Lemma find_last {A : Type} (p : A -> bool) (l : list A) (x : A) :
  find p (l ++ [x])
  = match find p l with
    | Some y => Some y
    | None => if p x then Some x else None
    end.
Proof.
  induction l as [|y ys IH]; simpl; [reflexivity|].
  destruct (p y); [reflexivity | exact IH].
Qed.

Lemma refresh_from (rates : list RateDoc) :
  forall (m : Cache) (c : string),
    let filled :=
      fold_left (fun m rate => cache_set (rate_currency rate)
                                 (parse_decimal (toUSDRate rate)) m) rates m in
    cache_get filled c
    = match last_rate rates c with
      | Some r => Some (parse_decimal (toUSDRate r))
      | None => cache_get m c
      end
    /\ (NoDup (map fst m) -> NoDup (map fst filled))
    /\ (forall k, In k (map fst filled)
                  <-> In k (map rate_currency rates) \/ In k (map fst m)).
Proof.
  induction rates as [|r rs IH]; intros m c; simpl.
  - repeat split; tauto.
  - destruct (IH (cache_set (rate_currency r) (parse_decimal (toUSDRate r)) m) c)
      as (Hget & Hnd & Hkeys).
    split; [|split].
    + rewrite Hget. unfold last_rate. simpl. rewrite find_last.
      destruct (find _ (rev rs)); [reflexivity|].
      rewrite cache_get_set. destruct (rate_currency r =? c)%string; reflexivity.
    + intros H. apply Hnd, cache_set_nodup, H.
    + intros k. rewrite Hkeys, cache_set_keys. intuition congruence.
Qed.

(** X8. The cache after a refresh gives for a currency the rate of its last
    rate document, read as a number, and nothing for a currency without a
    document; it has one entry per currency of the documents; and after
    [initializeExchangeRates] it is the table of the four initial rates. *)
Theorem refreshed_cache_holds_last_rates (rates : list RateDoc) :
  (forall c, cache_get (refreshExchangeRateCache rates) c
             = option_map (fun r => parse_decimal (toUSDRate r)) (last_rate rates c))
  /\ NoDup (map fst (refreshExchangeRateCache rates))
  /\ (forall c, In c (map fst (refreshExchangeRateCache rates))
                <-> In c (map rate_currency rates))
  /\ (forall sys t, cache (initializeExchangeRates sys t) = initialCache).
Proof.
  unfold refreshExchangeRateCache. split; [|split; [|split]].
  - intros c. destruct (refresh_from rates [] c) as (-> & _).
    destruct (last_rate rates c); reflexivity.
  - destruct (refresh_from rates [] EmptyString) as (_ & H & _).
    apply H. constructor.
  - intros c. destruct (refresh_from rates [] c) as (_ & _ & H).
    rewrite H. simpl. tauto.
  - intros sys t. reflexivity.
Qed.

(** ** Recalculating listing by listing *)

Lemma update_one_at (id : Z) (f : Listing -> Listing) (done rest : list Listing)
  (l : Listing) :
  listing_id l = id ->
  ~ In id (map listing_id done) ->
  update_one id f (done ++ l :: rest) = done ++ f l :: rest.
Proof.
  intros Hid. induction done as [|d ds IH]; simpl; intros Hnot.
  - rewrite Hid, Z.eqb_refl. reflexivity.
  - destruct (Z.eqb_spec (listing_id d) id) as [Heq|_]; [tauto|].
    rewrite IH by tauto. reflexivity.
Qed.

Lemma repriceAt_keeps (m : Cache) (t : Z) (l : Listing) :
  listing_id (repriceAt m t l) = listing_id l
  /\ priceLocal (repriceAt m t l) = priceLocal l
  /\ currency (repriceAt m t l) = currency l.
Proof.
  unfold repriceAt. destruct (currency l =? "USD")%string; [tauto|].
  destruct (convertToUSD m _ _); simpl; tauto.
Qed.

Lemma convertible_repriceAt (m m' : Cache) (t : Z) (l : Listing) :
  convertible m' (repriceAt m t l) = convertible m' l.
Proof.
  unfold convertible. destruct (repriceAt_keeps m t l) as (_ & -> & ->). reflexivity.
Qed.

Lemma repriceAt_again (m : Cache) (t t' : Z) (l : Listing) :
  repriceAt m t' (repriceAt m t l) = repriceAt m t' l.
Proof.
  unfold repriceAt at 1 3. destruct (repriceAt_keeps m t l) as (_ & -> & ->).
  destruct (currency l =? "USD")%string eqn:Husd.
  - unfold repriceAt. rewrite Husd. reflexivity.
  - destruct (convertToUSD m _ _) eqn:Hc; unfold repriceAt; rewrite Husd, Hc; reflexivity.
Qed.

(** The loop with its updates by identifier is one pass over the list. *)
Lemma recalculateLoop_sweep (m : Cache) (clock : nat -> Z) (rest : list Listing) :
  forall (i : nat) (done : list Listing),
    NoDup (map listing_id (done ++ rest)) ->
    recalculateLoop m clock i rest (done ++ rest) = done ++ sweep m clock i rest.
Proof.
  induction rest as [|l rest IH]; intros i done Hnd; simpl.
  - reflexivity.
  - assert (Hfresh : ~ In (listing_id l) (map listing_id done)).
    { rewrite map_app in Hnd. simpl in Hnd.
      apply NoDup_remove_2 in Hnd. intros Hin. apply Hnd, in_or_app. left. exact Hin. }
    assert (Hstep : forall l', listing_id l' = listing_id l ->
              NoDup (map listing_id ((done ++ [l']) ++ rest))).
    { intros l' Hid. rewrite <- app_assoc. simpl.
      rewrite map_app in *. simpl in *. rewrite Hid. exact Hnd. }
    unfold convertible, repriceAt.
    destruct (currency l =? "USD")%string eqn:Husd; simpl.
    + specialize (IH (S i) (done ++ [l]) (Hstep l eq_refl)).
      rewrite <- !app_assoc in IH. simpl in IH. exact IH.
    + destruct (convertToUSD m (parse_decimal (priceLocal l)) (currency l)) as [p|c];
        [|reflexivity].
      rewrite update_one_at by (reflexivity || exact Hfresh).
      set (l' := setConverted (decimal_of_fixed4 p) (cache_get m (currency l))
                   (clock i) l).
      specialize (IH (S i) (done ++ [l']) (Hstep l' eq_refl)).
      rewrite <- !app_assoc in IH. simpl in IH. exact IH.
Qed.

Lemma recalculateLoop_pass (m : Cache) (clock : nat -> Z) (coll : list Listing) :
  NoDup (map listing_id coll) ->
  recalculateLoop m clock 0 coll coll = sweep m clock 0 coll.
Proof. apply (recalculateLoop_sweep m clock coll 0 []). Qed.

Lemma sweep_keeps (m : Cache) (clock : nat -> Z) (coll : list Listing) :
  forall i, map listing_id (sweep m clock i coll) = map listing_id coll.
Proof.
  induction coll as [|l rest IH]; intros i; simpl; [reflexivity|].
  destruct (convertible m l); simpl; [|reflexivity].
  rewrite IH. destruct (repriceAt_keeps m (clock i) l) as (-> & _). reflexivity.
Qed.

Lemma sweep_again (m : Cache) (clock clock' : nat -> Z) (coll : list Listing) :
  forall i, sweep m clock' i (sweep m clock i coll) = sweep m clock' i coll.
Proof.
  induction coll as [|l rest IH]; intros i; simpl; [reflexivity|].
  destruct (convertible m l) eqn:Hc; simpl.
  - rewrite convertible_repriceAt, Hc, repriceAt_again, IH. reflexivity.
  - rewrite Hc. reflexivity.
Qed.

Lemma sweep_nth (m : Cache) (clock : nat -> Z) (coll : list Listing) :
  forall (i k : nat),
    nth_error (sweep m clock i coll) k
    = if (k <? reach m coll)%nat
      then option_map (repriceAt m (clock (i + k)%nat)) (nth_error coll k)
      else nth_error coll k.
Proof.
  induction coll as [|l rest IH]; intros i k; simpl.
  - destruct k; reflexivity.
  - destruct (convertible m l) eqn:Hc.
    + destruct k as [|k]; simpl.
      * rewrite Nat.add_0_r. reflexivity.
      * rewrite IH. replace (S i + k)%nat with (i + S k)%nat by lia.
        change (S k <? S (reach m rest))%nat with (k <? reach m rest)%nat.
        reflexivity.
    + reflexivity.
Qed.

Lemma reach_spec (m : Cache) (coll : list Listing) :
  (reach m coll <= List.length coll)%nat
  /\ Forall (fun l => convertible m l = true) (firstn (reach m coll) coll)
  /\ (forall l, nth_error coll (reach m coll) = Some l -> convertible m l = false).
Proof.
  induction coll as [|l rest (Hle & Hall & Hstop)]; simpl.
  - split; [lia|]. split; [constructor | discriminate].
  - destruct (convertible m l) eqn:Hc; simpl.
    + split; [lia|]. split; [constructor; assumption | exact Hstop].
    + split; [lia|]. split; [constructor|]. intros l' [= <-]. exact Hc.
Qed.

(** X9. When the listings have different identifiers, [recalculateUSDPrices]
    goes through them in order up to the first one in a currency other than
    USD that has no usable rate: a listing before that one is left as it is
    when in USD and otherwise gets the converted price, the cached rate and
    the date of its update, that one and every later listing are left as
    they are, and rates and cache are unchanged. *)
Theorem recalculation_stops_at_first_missing_rate (sys : System) (clock : nat -> Z) :
  NoDup (map listing_id (listings sys)) ->
  let after := recalculateUSDPrices sys clock in
  let stop := reach (cache sys) (listings sys) in
  (stop <= List.length (listings sys))%nat
  /\ Forall (fun l => convertible (cache sys) l = true) (firstn stop (listings sys))
  /\ (forall l, nth_error (listings sys) stop = Some l ->
                convertible (cache sys) l = false)
  /\ (forall k, (k < stop)%nat ->
        nth_error (listings after) k
        = option_map (repriceAt (cache sys) (clock k)) (nth_error (listings sys) k))
  /\ (forall k, (stop <= k)%nat ->
        nth_error (listings after) k = nth_error (listings sys) k)
  /\ rateDocs after = rateDocs sys
  /\ cache after = cache sys.
Proof.
  intros Hnd after stop.
  destruct (reach_spec (cache sys) (listings sys)) as (Hle & Hall & Hstop).
  assert (Heq : listings after = sweep (cache sys) clock 0 (listings sys)).
  { apply recalculateLoop_pass, Hnd. }
  repeat split; try assumption.
  - intros k Hk. rewrite Heq, sweep_nth.
    replace (k <? reach (cache sys) (listings sys))%nat with true
      by (symmetry; apply Nat.ltb_lt; exact Hk).
    reflexivity.
  - intros k Hk. rewrite Heq, sweep_nth.
    replace (k <? reach (cache sys) (listings sys))%nat with false
      by (symmetry; apply Nat.ltb_ge; exact Hk).
    reflexivity.
Qed.

Lemma recalculation_stops_at_first_missing_rate_witness :
  nth_error (listings (recalculateUSDPrices SampleShop.shop (fun _ => 200))) 3
  = nth_error (listings SampleShop.shop) 3
  /\ option_map priceUSD
       (nth_error (listings (recalculateUSDPrices SampleShop.shop (fun _ => 200))) 0)
     = Some (Dec false 267000 4).
Proof.
  destruct (recalculation_stops_at_first_missing_rate SampleShop.shop (fun _ => 200))
    as (_ & _ & _ & Hdone & Hrest & _).
  - simpl. repeat constructor; simpl; lia.
  - split.
    + apply Hrest. vm_compute. lia.
    + rewrite Hdone by (vm_compute; lia). vm_compute. reflexivity.
Defined.

(** X10. A second recalculation overrides the first: with different
    identifiers, recalculating twice leaves the listings a single
    recalculation at the dates of the second would leave. *)
Theorem recalculation_twice_is_once (sys : System) (clock clock' : nat -> Z) :
  NoDup (map listing_id (listings sys)) ->
  recalculateUSDPrices (recalculateUSDPrices sys clock) clock'
  = recalculateUSDPrices sys clock'.
Proof.
  intros Hnd. unfold recalculateUSDPrices. cbn [cache rateDocs listings].
  f_equal.
  rewrite (recalculateLoop_pass (cache sys) clock (listings sys) Hnd).
  rewrite !recalculateLoop_pass; [apply sweep_again | exact Hnd |].
  rewrite sweep_keeps. exact Hnd.
Qed.

Lemma recalculation_twice_is_once_witness :
  recalculateUSDPrices (recalculateUSDPrices SampleShop.shop (fun _ => 200))
    (fun i => 300 + Z.of_nat i)
  = recalculateUSDPrices SampleShop.shop (fun i => 300 + Z.of_nat i).
Proof.
  apply (recalculation_twice_is_once SampleShop.shop).
  simpl. repeat constructor; simpl; lia.
Defined.

(** ** Recalculating by aggregation *)

Lemma same_id_same_listing (coll : list Listing) (a b : Listing) :
  NoDup (map listing_id coll) ->
  In a coll -> In b coll -> listing_id a = listing_id b -> a = b.
Proof.
  induction coll as [|l rest IH]; simpl; intros Hnd Ha Hb Heq; [contradiction|].
  inversion Hnd as [|? ? Hl Hrest]; subst.
  destruct Ha as [->|Ha], Hb as [->|Hb].
  - reflexivity.
  - exfalso. apply Hl. rewrite Heq. apply in_map, Hb.
  - exfalso. apply Hl. rewrite <- Heq. apply in_map, Ha.
  - apply IH; assumption.
Qed.

Lemma selected_incl (updateSinceDate limit : option Z) (coll : list Listing)
  (l : Listing) :
  In l (selected updateSinceDate limit coll) ->
  In l coll /\ matchStage updateSinceDate l = true.
Proof.
  unfold selected. intros Hin. apply filter_In.
  destruct limit as [v|]; [destruct (v =? 0)|]; try exact Hin.
  rewrite <- (firstn_skipn (Z.to_nat v)). apply in_or_app. left. exact Hin.
Qed.

Lemma is_selected_spec (docs : list Listing) (l : Listing) :
  is_selected docs l = true <-> exists d, In d docs /\ listing_id d = listing_id l.
Proof.
  unfold is_selected. rewrite existsb_exists.
  split; intros (d & Hd & Heq); exists d; (split; [exact Hd|]);
    [apply Z.eqb_eq | apply Z.eqb_eq]; exact Heq.
Qed.

Section Merging.
Variable f : Listing -> Listing.
Hypothesis f_keeps_id : forall l, listing_id (f l) = listing_id l.

Lemma find_rewritten (docs : list Listing) (l : Listing) :
  find (fun d => listing_id d =? listing_id l) (map f docs)
  = option_map f (find (fun d => listing_id d =? listing_id l) docs).
Proof.
  induction docs as [|d ds IH]; simpl; [reflexivity|].
  rewrite f_keeps_id. destruct (listing_id d =? listing_id l); [reflexivity | exact IH].
Qed.

(** Merging the rewritten documents back rewrites them where they stand. *)
Lemma merge_replace_in_place (docs coll : list Listing) :
  NoDup (map listing_id coll) ->
  incl docs coll ->
  merge_replace (map f docs) coll
  = map (fun l => if is_selected docs l then f l else l) coll.
Proof.
  intros Hnd Hincl. unfold merge_replace. apply map_ext_in. intros l Hl.
  rewrite find_rewritten.
  destruct (find (fun d => listing_id d =? listing_id l) docs) as [d|] eqn:Hfind;
    simpl.
  - apply find_some in Hfind as [Hd Heq]. apply Z.eqb_eq in Heq.
    replace (is_selected docs l) with true
      by (symmetry; apply is_selected_spec; exists d; tauto).
    f_equal. apply (same_id_same_listing coll); auto.
  - destruct (is_selected docs l) eqn:Hsel; [|reflexivity].
    apply is_selected_spec in Hsel as (d & Hd & Heq).
    pose proof (find_none _ _ Hfind d Hd) as Hno. simpl in Hno.
    apply Z.eqb_neq in Hno. contradiction.
Qed.

End Merging.

Lemma toProcess_selected (updateSinceDate limit : option Z) (coll : list Listing) :
  (forall v, limit = Some v -> 0 <= v) ->
  toProcess limit
    (Z.of_nat (List.length (filter (matchStage updateSinceDate) coll)))
  = Z.of_nat (List.length (selected updateSinceDate limit coll)).
Proof.
  intros Hlim. unfold toProcess, selected.
  destruct limit as [v|]; [|reflexivity].
  destruct (v =? 0); [reflexivity|].
  specialize (Hlim v eq_refl). rewrite length_firstn. lia.
Qed.

Section AggregationFacts.
Variable num : Type.
Variable store_price : decimal128 -> float -> decimal128.
Variable per_second : Z -> Z -> num.
Variable num_zero : num.

Let recalculate := recalculateUSDPricesAggregation num store_price per_second num_zero.

(** The cache the method works with: the one it finds, refreshed when it
    is empty. *)
Lemma aggregation_cache (sys : System) (start stamp finish : Z)
  (updateSinceDate limit : option Z) :
  cache (fst (recalculate sys start stamp finish updateSinceDate limit))
  = match cache sys with
    | [] => refreshExchangeRateCache (rateDocs sys)
    | _ :: _ => cache sys
    end
  /\ rateDocs (fst (recalculate sys start stamp finish updateSinceDate limit))
     = rateDocs sys.
Proof.
  unfold recalculate, recalculateUSDPricesAggregation.
  destruct (toProcess _ _ =? 0); [split; reflexivity|].
  destruct (recalculationOutput _ _ _ _ _ _); split; reflexivity.
Qed.

Lemma aggregation_done (sys : System) (start stamp finish : Z)
  (updateSinceDate limit : option Z) (after : System) (metrics : Metrics num) :
  NoDup (map listing_id (listings sys)) ->
  recalculate sys start stamp finish updateSinceDate limit = (after, Done metrics) ->
  let docs := selected updateSinceDate limit (listings sys) in
  updatedRecords metrics = Z.of_nat (List.length docs)
  /\ recordsToProcess metrics = Z.of_nat (List.length docs)
  /\ totalAvailable metrics
     = Z.of_nat (List.length (filter (matchStage updateSinceDate) (listings sys)))
  /\ listings after
     = map (fun l => if is_selected docs l
                     then repriced store_price (cache after) stamp l else l)
         (listings sys).
Proof.
  intros Hnd Hrun docs.
  pose proof (aggregation_cache sys start stamp finish updateSinceDate limit) as [Hc _].
  rewrite Hrun in Hc. simpl in Hc.
  unfold recalculate, recalculateUSDPricesAggregation in Hrun.
  rewrite <- Hc in Hrun.
  set (total := Z.of_nat (List.length (filter (matchStage updateSinceDate)
                                         (listings sys)))) in *.
  destruct (toProcess limit total =? 0) eqn:Hzero.
  - injection Hrun as <- <-. simpl.
    apply Z.eqb_eq in Hzero.
    assert (Hnone : docs = []).
    { unfold docs, selected. fold total in Hzero. unfold toProcess in Hzero.
      assert (Hmatched : total = 0 -> filter (matchStage updateSinceDate) (listings sys) = []).
      { unfold total. intros H0. destruct (filter _ _); [reflexivity | simpl in H0; lia]. }
      destruct limit as [v|]; [|auto].
      destruct (v =? 0) eqn:Hv; [auto|].
      apply Z.eqb_neq in Hv.
      assert (total = 0) as H0 by (unfold total in *; lia).
      rewrite (Hmatched H0). apply firstn_nil. }
    rewrite Hnone. simpl. repeat split; try reflexivity.
    symmetry. apply map_id.
  - subst total. unfold recalculationOutput in Hrun.
    destruct limit as [v|].
    + destruct (v =? 0) eqn:Hv.
      * destruct (switchBranches (cache after)); [discriminate|].
        injection Hrun as <- <-.
        cbn [updatedRecords recordsToProcess totalAvailable listings cache].
        pose proof (toProcess_selected updateSinceDate (Some v) (listings sys)) as Hn.
        unfold toProcess in Hn. fold docs in Hn.
        rewrite Hn by (intros ? [= <-]; apply Z.eqb_eq in Hv; lia). repeat split; try reflexivity.
        replace (filter (matchStage updateSinceDate) (listings sys)) with docs
          by (unfold docs, selected; rewrite Hv; reflexivity).
        apply merge_replace_in_place; [reflexivity | exact Hnd |].
        intros l Hl. apply (selected_incl updateSinceDate (Some v)), Hl.
      * unfold check_limit in Hrun. destruct (v <=? 0) eqn:Hneg; [discriminate|].
        simpl in Hrun.
        destruct (switchBranches (cache after)); [discriminate|].
        injection Hrun as <- <-.
        cbn [updatedRecords recordsToProcess totalAvailable listings cache].
        pose proof (toProcess_selected updateSinceDate (Some v) (listings sys)) as Hn.
        unfold toProcess in Hn. fold docs in Hn.
        rewrite Hn by (intros ? [= <-]; apply Z.leb_gt in Hneg; lia). repeat split; try reflexivity.
        replace (stage_limit v (filter (matchStage updateSinceDate) (listings sys)))
          with docs by (unfold docs, selected; rewrite Hv; reflexivity).
        apply merge_replace_in_place; [reflexivity | exact Hnd |].
        intros l Hl. apply (selected_incl updateSinceDate (Some v)), Hl.
    + destruct (switchBranches (cache after)); [discriminate|].
      injection Hrun as <- <-.
        cbn [updatedRecords recordsToProcess totalAvailable listings cache].
      pose proof (toProcess_selected updateSinceDate None (listings sys)) as Hn.
      unfold toProcess in Hn. fold docs in Hn.
      try rewrite Hn by discriminate. repeat split; try reflexivity.
      apply merge_replace_in_place; [reflexivity | exact Hnd |].
      intros l Hl. apply (selected_incl updateSinceDate None), Hl.
Qed.

End AggregationFacts.

Lemma selected_marks_itself (updateSinceDate limit : option Z) (coll : list Listing) :
  NoDup (map listing_id coll) ->
  let docs := selected updateSinceDate limit coll in
  Permutation (filter (is_selected docs) coll) docs.
Proof.
  intros Hnd docs.
  assert (Hcoll : NoDup coll) by (eapply NoDup_map_inv; exact Hnd).
  apply NoDup_Permutation.
  - apply NoDup_filter, Hcoll.
  - unfold docs, selected.
    destruct limit as [v|]; [destruct (v =? 0)|]; try (apply NoDup_filter, Hcoll).
    apply (NoDup_window (Z.to_nat v) 0), NoDup_filter, Hcoll.
  - intros l. rewrite filter_In, is_selected_spec. split.
    + intros (Hl & d & Hd & Heq).
      destruct (selected_incl _ _ _ _ Hd) as [Hdc _].
      rewrite <- (same_id_same_listing coll d l Hnd Hdc Hl Heq). exact Hd.
    + intros Hl. split; [apply (selected_incl _ _ _ _ Hl)|].
      exists l. split; [exact Hl | reflexivity].
Qed.

(** X11. When the listings have different identifiers and the
    recalculation by aggregation returns metrics, the listings it selected
    (those not in USD, older than the date when one is given, the first
    [limit] of them when a limit other than 0 is given) are rewritten where
    they stand with the price, rate and date of the pipeline, every other
    listing is left as it is, and the number of updated records the metrics
    report, which the method takes to be the number of records to process, is
    the number of listings rewritten. *)
Theorem aggregation_updates_what_it_reports
  (num : Type) (store_price : decimal128 -> float -> decimal128)
  (per_second : Z -> Z -> num) (num_zero : num)
  (sys : System) (start stamp finish : Z) (updateSinceDate limit : option Z)
  (after : System) (metrics : Metrics num) :
  NoDup (map listing_id (listings sys)) ->
  recalculateUSDPricesAggregation num store_price per_second num_zero sys
    start stamp finish updateSinceDate limit = (after, Done metrics) ->
  let docs := selected updateSinceDate limit (listings sys) in
  listings after
  = map (fun l => if is_selected docs l
                  then repriced store_price (cache after) stamp l else l)
      (listings sys)
  /\ Permutation (filter (is_selected docs) (listings sys)) docs
  /\ (forall l, In l docs -> currency l <> "USD")
  /\ updatedRecords metrics
     = Z.of_nat (List.length (filter (is_selected docs) (listings sys)))
  /\ recordsToProcess metrics = updatedRecords metrics
  /\ totalAvailable metrics
     = Z.of_nat (List.length (filter (matchStage updateSinceDate) (listings sys)))
  /\ rateDocs after = rateDocs sys.
Proof.
  intros Hnd Hrun docs.
  destruct (aggregation_done num store_price per_second num_zero sys start stamp
              finish updateSinceDate limit after metrics Hnd Hrun)
    as (Hup & Hproc & Htotal & Hlist).
  pose proof (selected_marks_itself updateSinceDate limit (listings sys) Hnd) as Hperm.
  pose proof (aggregation_cache num store_price per_second num_zero sys start stamp
                finish updateSinceDate limit) as [_ Hrates].
  rewrite Hrun in Hrates. simpl in Hrates.
  repeat split; try assumption.
  - intros l Hl Husd. apply selected_incl in Hl as [_ Hm].
    unfold matchStage in Hm. rewrite Husd in Hm. discriminate.
  - rewrite Hup. f_equal. symmetry. apply Permutation_length, Hperm.
  - rewrite Hproc, Hup. reflexivity.
Qed.

Lemma aggregation_updates_what_it_reports_witness :
  exists after metrics,
    recalculateUSDPricesAggregation Z (fun d _ => d) (fun n _ => n) 0
      SampleShop.shop 1000 1001 1002 (Some 150) (Some 2) = (after, Done metrics)
    /\ updatedRecords metrics = 2
    /\ map recalculatedVia (listings after)
       = [Some "pure_aggregation_pipeline"; None;
          Some "pure_aggregation_pipeline"; None].
Proof.
  remember (recalculateUSDPricesAggregation Z (fun d _ => d) (fun n _ => n) 0
              SampleShop.shop 1000 1001 1002 (Some 150) (Some 2)) as run eqn:Hrun.
  assert (Hex : exists after metrics, run = (after, Done metrics)).
  { rewrite Hrun. vm_compute. eexists. eexists. reflexivity. }
  destruct Hex as (after & metrics & Heq).
  exists after, metrics. split; [exact Heq|].
  rewrite Heq in Hrun. symmetry in Hrun.
  destruct (aggregation_updates_what_it_reports Z (fun d _ => d) (fun n _ => n) 0
              SampleShop.shop 1000 1001 1002 (Some 150) (Some 2) after metrics)
    as (Hlist & _ & _ & Hup & _).
  - simpl. repeat constructor; simpl; lia.
  - exact Hrun.
  - split; [rewrite Hup; reflexivity|].
    rewrite Hlist. reflexivity.
Defined.





(** ** The two recalculations *)







(** ** The pager of the listings *)

(** X14. For a limit from 1 on, the pagination block of [listByPrice] and
    [searchByPriceRange] and the pager of the marketplace agree: the same
    number of pages, the same answer to whether a page follows, which is
    that the documents skipped and the page together are fewer than the
    documents counted, and the same answer to whether a page precedes. *)
Theorem list_pager_agrees_with_marketplace_pager (pg lim totalCount : Z) :
  1 <= lim ->
  lp_totalPages (listPagination pg lim totalCount)
  = Pages (totalPages (paginationOf pg lim totalCount))
  /\ lp_hasNextPage (listPagination pg lim totalCount)
     = hasNextPage (paginationOf pg lim totalCount)
  /\ (lp_hasNextPage (listPagination pg lim totalCount) = true
      <-> lp_skip (listPagination pg lim totalCount) + lim < totalCount)
  /\ lp_hasPrevPage (listPagination pg lim totalCount)
     = hasPrevPage (paginationOf pg lim totalCount).
Proof.
  intros Hlim. unfold listPagination, paginationOf, pageCountOf. simpl.
  replace (lim =? 0) with false by (symmetry; apply Z.eqb_neq; lia).
  simpl. destruct (ceil_div_bounds totalCount lim) as [Hlow Hup]; [lia|].
  assert (Hnext : (pg <? ceil_div totalCount lim) = (pg * lim <? totalCount)).
  { destruct (Z.ltb_spec pg (ceil_div totalCount lim)),
             (Z.ltb_spec (pg * lim) totalCount); try reflexivity; nia. }
  repeat split; try reflexivity; try exact Hnext.
  - rewrite Hnext. intros H. apply Z.ltb_lt in H. lia.
  - rewrite Hnext. intros H. apply Z.ltb_lt. lia.
Qed.

Lemma list_pager_agrees_with_marketplace_pager_witness :
  lp_totalPages (listPagination 2 10 25) = Pages 3
  /\ lp_hasNextPage (listPagination 2 10 25) = true.
Proof.
  destruct (list_pager_agrees_with_marketplace_pager 2 10 25) as (Hpages & Hnext & _).
  - lia.
  - split; [rewrite Hpages | rewrite Hnext]; reflexivity.
Defined.

(** ** Listing by price *)

Lemma pages_cover_all {A : Type} (lim total : Z) (full : list A)
  (page_at : Z -> list A) :
  1 <= lim ->
  total = Z.of_nat (List.length full) ->
  (forall p, 1 <= p ->
     page_at p = firstn (Z.to_nat lim) (skipn (Z.to_nat ((p - 1) * lim)) full)) ->
  flat_map page_at (page_numbers (ceil_div total lim)) = full.
Proof.
  intros Hlim Htotal Hpage. unfold page_numbers.
  rewrite flat_map_of_map.
  rewrite (flat_map_ext _
    (fun i => firstn (Z.to_nat lim) (skipn (i * Z.to_nat lim) full))).
  - apply windows_cover.
    destruct (ceil_div_bounds total lim) as [_ Hup]; [lia|].
    assert (0 <= ceil_div total lim) by nia.
    apply Nat2Z.inj_le. rewrite Nat2Z.inj_mul, !Z2Nat.id by lia. lia.
  - intros i. rewrite Hpage by lia. f_equal. f_equal.
    replace (Z.of_nat i + 1 - 1) with (Z.of_nat i) by lia.
    rewrite Z2Nat.inj_mul, Nat2Z.id by lia. reflexivity.
Qed.

Lemma displayRow_ok (m : Cache) (code : string) (l : Listing) :
  displayable m code = true ->
  listing_category l <> None ->
  displayRow m code l = Found tt.
Proof.
  unfold displayable, displayRow, categoryColumn, convertFromUSD.
  intros Hcode Hcat.
  destruct (code =? "USD")%string.
  - destruct (listing_category l); [reflexivity | contradiction].
  - simpl in Hcode. destruct (cache_get m code) as [r|]; [|discriminate].
    destruct (falsy r); [discriminate|].
    destruct (listing_category l); [reflexivity | contradiction].
Qed.

Lemma displayRows_ok (m : Cache) (code : string) (rows : list Listing) :
  displayable m code = true ->
  Forall (fun l => listing_category l <> None) rows ->
  displayRows m code rows = Found tt.
Proof.
  intros Hcode. induction 1 as [|l rest Hl _ IH]; simpl; [reflexivity|].
  rewrite (displayRow_ok m code l Hcode Hl). exact IH.
Qed.

Lemma displayRows_inv (m : Cache) (code : string) (rows : list Listing) (u : unit) :
  displayRows m code rows = Found u ->
  Forall (fun l => listing_category l <> None) rows.
Proof.
  induction rows as [|l rest IH]; simpl; intros H; constructor.
  - unfold displayRow, categoryColumn in H. intros Hnone. rewrite Hnone in H.
    destruct (code =? "USD")%string; [discriminate|].
    destruct (convertFromUSD m _ code); discriminate.
  - apply IH. destruct (displayRow m code l); [exact H | discriminate].
Qed.

Lemma page_of_listings_window (m : Cache) (code : string) (ordered : list Listing)
  (totalCount lim pg : Z) :
  displayable m code = true ->
  Forall (fun l => listing_category l <> None) ordered ->
  1 <= lim -> 1 <= pg ->
  exists r,
    page_of_listings m code ordered totalCount lim pg = Found r
    /\ page_listings r
       = firstn (Z.to_nat lim) (skipn (Z.to_nat ((pg - 1) * lim)) ordered)
    /\ page_pagination r = listPagination pg lim totalCount.
Proof.
  intros Hcode Hcat Hlim Hpg. unfold page_of_listings.
  replace ((pg - 1) * lim <? 0) with false by (symmetry; apply Z.ltb_ge; nia).
  assert (Hshown : cursor_limit lim (stage_skip ((pg - 1) * lim) ordered)
                   = firstn (Z.to_nat lim) (skipn (Z.to_nat ((pg - 1) * lim)) ordered)).
  { unfold cursor_limit, stage_skip.
    replace (lim =? 0) with false by (symmetry; apply Z.eqb_neq; lia).
    rewrite Z.abs_eq by lia. reflexivity. }
  rewrite Hshown, displayRows_ok.
  - eexists. split; [reflexivity|]. split; reflexivity.
  - exact Hcode.
  - apply Forall_forall. intros l Hl. rewrite Forall_forall in Hcat.
    apply Hcat. eapply In_window. exact Hl.
Qed.

Lemma page_of_listings_incl (m : Cache) (code : string) (ordered : list Listing)
  (totalCount lim pg : Z) (r : ListingPage) :
  page_of_listings m code ordered totalCount lim pg = Found r ->
  incl (page_listings r) ordered
  /\ lp_totalCount (page_pagination r) = totalCount
  /\ Forall (fun l => listing_category l <> None) (page_listings r).
Proof.
  unfold page_of_listings. destruct ((pg - 1) * lim <? 0); [discriminate|].
  destruct (displayRows m code _) as [u|e] eqn:Hrows; [|discriminate].
  intros [= <-]. simpl. split; [|split; [reflexivity|]].
  - intros l Hl. unfold cursor_limit, stage_skip in Hl.
    destruct (lim =? 0).
    + rewrite <- (firstn_skipn (Z.to_nat ((pg - 1) * lim)) ordered).
      apply in_or_app. right. exact Hl.
    + eapply In_window. exact Hl.
  - eapply displayRows_inv. exact Hrows.
Qed.

Section PriceOrder.
Variable price_leb : decimal128 -> decimal128 -> bool.
Hypothesis price_leb_total : forall a b, price_leb a b = true \/ price_leb b a = true.

Lemma sorted_by_price_ordered (direction : Z) (docs : list Listing) :
  direction = 1 \/ direction = -1 ->
  exists ordered,
    sorted_by_price price_leb direction docs = Found ordered
    /\ Permutation ordered docs
    /\ Sorted (in_order price_leb direction) ordered.
Proof.
  unfold sorted_by_price, in_order. intros [->| ->]; simpl.
  - eexists. split; [reflexivity|]. split; [apply sort_by_perm|].
    apply sort_by_sorted. intros a b. apply price_leb_total.
  - eexists. split; [reflexivity|]. split; [apply sort_by_perm|].
    apply (sort_by_sorted (fun a b => by_price price_leb b a)).
    intros a b. apply price_leb_total.
Qed.

End PriceOrder.

Lemma sorted_by_price_incl (price_leb : decimal128 -> decimal128 -> bool)
  (direction : Z) (docs ordered : list Listing) :
  sorted_by_price price_leb direction docs = Found ordered ->
  Permutation ordered docs.
Proof.
  unfold sorted_by_price.
  destruct (direction =? 1); [intros [= <-]; apply sort_by_perm|].
  destruct (direction =? -1); [intros [= <-]; apply sort_by_perm | discriminate].
Qed.

Lemma in_order_trans (price_leb : decimal128 -> decimal128 -> bool) (direction : Z) :
  (forall a b c, price_leb a b = true -> price_leb b c = true -> price_leb a c = true) ->
  forall x y z,
    in_order price_leb direction x y -> in_order price_leb direction y z ->
    in_order price_leb direction x z.
Proof.
  intros Htrans x y z. unfold in_order, by_price.
  destruct (direction =? 1); intros Hxy Hyz; eapply Htrans; eassumption.
Qed.

(** X15. For a limit from 1 on, a sort direction of 1 or -1, a display
    currency that is USD or has a usable rate, listings that all have a
    category and of which no two have equivalent prices in USD, when the
    store's order on prices is total and transitive: the selection has one
    sorted arrangement only, whatever a sort does with ties; [listByPrice]
    answers every page from 1 on with the window of that page in it and
    counts the whole selection; and the pages 1 to the number of pages, put
    end to end, give that arrangement, every listing of the selection
    once. *)
Theorem price_list_pages_partition
  (price_leb : decimal128 -> decimal128 -> bool) (m : Cache) (coll : list Listing)
  (inputCurrency : string) (sortOrder lim : Z) (category : option string) :
  (forall a b, price_leb a b = true \/ price_leb b a = true) ->
  (forall a b c, price_leb a b = true -> price_leb b c = true -> price_leb a c = true) ->
  1 <= lim ->
  sortOrder = 1 \/ sortOrder = -1 ->
  displayable m inputCurrency = true ->
  Forall (fun l => listing_category l <> None) coll ->
  let matching := filter (listQuery category) coll in
  distinct_prices price_leb matching ->
  let answer pg := listByPrice price_leb m coll inputCurrency sortOrder lim category pg in
  exists ordered,
    Permutation ordered matching
    /\ Sorted (in_order price_leb sortOrder) ordered
    /\ (forall sorted,
          Permutation sorted matching ->
          Sorted (in_order price_leb sortOrder) sorted -> sorted = ordered)
    /\ (forall pg, 1 <= pg ->
          exists r,
            answer pg = Found r
            /\ page_listings r
               = firstn (Z.to_nat lim) (skipn (Z.to_nat ((pg - 1) * lim)) ordered)
            /\ lp_totalCount (page_pagination r) = Z.of_nat (List.length matching))
    /\ flat_map (fun pg => listings_of (answer pg))
         (page_numbers (ceil_div (Z.of_nat (List.length matching)) lim))
       = ordered.
Proof.
  intros Htotal Htrans Hlim Hdir Hcode Hcat matching Hties answer.
  destruct (sorted_by_price_ordered price_leb Htotal sortOrder matching Hdir)
    as (ordered & Hsort & Hperm & Hsorted).
  exists ordered. split; [exact Hperm|]. split; [exact Hsorted|].
  split.
  { intros sorted Hp Hs.
    apply (sorted_arrangement_unique (in_order price_leb sortOrder)
             (in_order_trans price_leb sortOrder Htrans));
      [| |exact Hs|exact Hsorted].
    - intros x y Hx Hy Hxy Hyx.
      apply (Permutation_in _ Hp) in Hx. apply (Permutation_in _ Hp) in Hy.
      unfold in_order, by_price in Hxy, Hyx.
      destruct (sortOrder =? 1); apply Hties; assumption.
    - eapply perm_trans; [exact Hp | apply Permutation_sym, Hperm]. }
  assert (Hordered : Forall (fun l => listing_category l <> None) ordered).
  { apply Forall_forall. intros l Hl. rewrite Forall_forall in Hcat. apply Hcat.
    apply (Permutation_in _ Hperm) in Hl. apply filter_In in Hl. tauto. }
  assert (Hpage : forall pg, 1 <= pg ->
            exists r,
              answer pg = Found r
              /\ page_listings r
                 = firstn (Z.to_nat lim) (skipn (Z.to_nat ((pg - 1) * lim)) ordered)
              /\ lp_totalCount (page_pagination r) = Z.of_nat (List.length matching)).
  { intros pg Hpg. unfold answer, listByPrice. fold matching. rewrite Hsort.
    destruct (page_of_listings_window m inputCurrency ordered
                (Z.of_nat (List.length matching)) lim pg Hcode Hordered Hlim Hpg)
      as (r & -> & Hwin & Hpag).
    exists r. split; [reflexivity|]. split; [exact Hwin|].
    rewrite Hpag. reflexivity. }
  split; [exact Hpage|].
  apply pages_cover_all; [exact Hlim | | ].
  - f_equal. symmetry. apply Permutation_length, Hperm.
  - intros pg Hpg. destruct (Hpage pg Hpg) as (r & -> & Hwin & _). exact Hwin.
Qed.

Lemma price_list_pages_partition_witness :
  map listing_id
    (flat_map (fun pg => listings_of
                           (listByPrice SampleShop.by_coefficient initialCache
                              SampleShop.priced "PHP" 1 2 None pg))
       (page_numbers 2))
  = [2; 1; 4].
Proof.
  destruct (price_list_pages_partition SampleShop.by_coefficient initialCache
              SampleShop.priced "PHP" 1 2 None)
    as (ordered & _ & _ & Hone & _ & Hcat).
  - intros a b. unfold SampleShop.by_coefficient. rewrite !Z.leb_le. lia.
  - intros a b c. unfold SampleShop.by_coefficient. rewrite !Z.leb_le. lia.
  - lia.
  - left. reflexivity.
  - vm_compute. reflexivity.
  - simpl. repeat constructor; discriminate.
  - intros a b Ha Hb Hab Hba. simpl in Ha, Hb.
    repeat (destruct Ha as [<-|Ha]); try contradiction;
      repeat (destruct Hb as [<-|Hb]); try contradiction;
      try reflexivity; vm_compute in Hab, Hba; discriminate.
  - change (page_numbers 2)
      with (page_numbers (ceil_div (Z.of_nat (List.length
              (filter (listQuery None) SampleShop.priced))) 2)).
    rewrite Hcat.
    rewrite <- (Hone (sort_by (by_price SampleShop.by_coefficient) SampleShop.priced)).
    + vm_compute. reflexivity.
    + apply sort_by_perm.
    + apply (sort_by_sorted (by_price SampleShop.by_coefficient)).
      intros a b. unfold by_price, SampleShop.by_coefficient. rewrite !Z.leb_le. lia.
Defined.

(** X16. The two listing methods read the category differently.
    [searchByPriceRange] with its default, no category, asks for the
    listings that have none, whose rows it cannot print: whenever it
    returns, it returns no listing.  With 'All' it puts no condition on the
    category.  In [listByPrice] no category puts no condition, and 'All'
    selects the listings whose category is 'All'. *)
Theorem listing_methods_read_category_differently
  (price_leb : decimal128 -> decimal128 -> bool)
  (decimal_of_number : float -> decimal128)
  (m : Cache) (coll : list Listing) (minPrice maxPrice : float) (code : string)
  (sortOrder lim pg : Z) :
  (forall r,
      searchByPriceRange price_leb decimal_of_number m coll minPrice maxPrice code
        None lim pg = Found r ->
      page_listings r = [])
  /\ (forall r lo hi,
        searchByPriceRange price_leb decimal_of_number m coll minPrice maxPrice code
          (Some "All") lim pg = Found r ->
        rangeInUSD decimal_of_number m minPrice maxPrice code = Found (lo, hi) ->
        lp_totalCount (page_pagination r)
        = Z.of_nat (List.length (filter (in_range price_leb lo hi) coll)))
  /\ (forall r,
        listByPrice price_leb m coll code sortOrder lim None pg = Found r ->
        lp_totalCount (page_pagination r) = Z.of_nat (List.length coll))
  /\ (forall r,
        listByPrice price_leb m coll code sortOrder lim (Some "All") pg = Found r ->
        Forall (fun l => listing_category l = Some "All") (page_listings r)).
Proof.
  split; [|split; [|split]].
  - intros r Hr. unfold searchByPriceRange in Hr.
    destruct (rangeInUSD _ _ _ _ _) as [[lo hi]|e]; [|discriminate].
    destruct (sorted_by_price _ _ _) as [ordered|e] eqn:Hsort; [|discriminate].
    apply sorted_by_price_incl in Hsort.
    apply page_of_listings_incl in Hr as (Hincl & _ & Hcat).
    destruct (page_listings r) as [|l rest]; [reflexivity|]. exfalso.
    inversion Hcat as [|? ? Hl _]; subst. apply Hl.
    specialize (Hincl l (or_introl eq_refl)).
    apply (Permutation_in _ Hsort) in Hincl. apply filter_In in Hincl as [_ Hq].
    apply andb_true_iff in Hq as [_ Hq]. simpl in Hq.
    destruct (listing_category l); [discriminate | reflexivity].
  - intros r lo hi Hr Hrange. unfold searchByPriceRange in Hr. rewrite Hrange in Hr.
    destruct (sorted_by_price _ _ _) as [ordered|e]; [|discriminate].
    apply page_of_listings_incl in Hr as (_ & -> & _). do 2 f_equal.
    apply filter_ext. intros l. apply andb_true_r.
  - intros r Hr. unfold listByPrice in Hr.
    destruct (sorted_by_price _ _ _) as [ordered|e]; [|discriminate].
    apply page_of_listings_incl in Hr as (_ & -> & _). do 2 f_equal.
    unfold listQuery. clear. induction coll as [|l rest IH]; simpl; congruence.
  - intros r Hr. unfold listByPrice in Hr.
    destruct (sorted_by_price _ _ _) as [ordered|e] eqn:Hsort; [|discriminate].
    apply sorted_by_price_incl in Hsort.
    apply page_of_listings_incl in Hr as (Hincl & _).
    apply Forall_forall. intros l Hl. apply Hincl in Hl.
    apply (Permutation_in _ Hsort) in Hl. apply filter_In in Hl as [_ Hq].
    unfold listQuery, has_category in Hq.
    destruct (listing_category l) as [c|]; [|discriminate].
    apply String.eqb_eq in Hq. congruence.
Qed.

Lemma listing_methods_read_category_differently_witness :
  listings_of
    (searchByPriceRange (fun _ _ => true) (fun _ => Dec false 0 0) initialCache
       (listings SampleShop.shop) one one "USD" None 10 1)
  = [].
Proof.
  destruct (listing_methods_read_category_differently (fun _ _ => true)
              (fun _ => Dec false 0 0) initialCache (listings SampleShop.shop)
              one one "USD" 1 10 1) as (Hsearch & _).
  destruct (searchByPriceRange (fun _ _ => true) (fun _ => Dec false 0 0) initialCache
              (listings SampleShop.shop) one one "USD" None 10 1) as [r|e] eqn:Hr;
    [|reflexivity].
  simpl. apply Hsearch. reflexivity.
Defined.

(** ** When a listing query throws *)

Lemma convertToUSD_displayable (m : Cache) (p : float) (code : string) :
  (exists x, convertToUSD m p code = Converted x) <-> displayable m code = true.
Proof.
  unfold convertToUSD, displayable.
  destruct (code =? "USD")%string; simpl; [split; eauto|].
  destruct (cache_get m code) as [r|].
  - destruct (falsy r); simpl; split; eauto; try discriminate.
    intros [x Hx]. discriminate.
  - split; [intros [x Hx]; discriminate | discriminate].
Qed.

Lemma displayRows_iff (m : Cache) (code : string) (rows : list Listing) :
  (exists u, displayRows m code rows = Found u)
  <-> Forall (fun l => listing_category l <> None) rows
      /\ (rows = [] \/ displayable m code = true).
Proof.
  split.
  - intros [u Hu]. split; [eapply displayRows_inv; exact Hu|].
    destruct rows as [|l rest]; [left; reflexivity | right].
    simpl in Hu. unfold displayRow, convertFromUSD, displayable in *.
    destruct (code =? "USD")%string; [reflexivity|]. simpl.
    destruct (cache_get m code) as [r|]; [|discriminate].
    destruct (falsy r); [discriminate | reflexivity].
  - intros [Hcat [-> | Hcode]].
    + exists tt. reflexivity.
    + exists tt. apply displayRows_ok; assumption.
Qed.

Lemma page_of_listings_iff (m : Cache) (code : string) (ordered : list Listing)
  (totalCount lim pg : Z) :
  (exists r, page_of_listings m code ordered totalCount lim pg = Found r)
  <-> 0 <= (pg - 1) * lim
      /\ Forall (fun l => listing_category l <> None)
           (cursor_limit lim (stage_skip ((pg - 1) * lim) ordered))
      /\ (cursor_limit lim (stage_skip ((pg - 1) * lim) ordered) = []
          \/ displayable m code = true).
Proof.
  unfold page_of_listings.
  destruct (Z.ltb_spec ((pg - 1) * lim) 0) as [Hneg|Hpos].
  - split; [intros [r Hr]; discriminate | intros [H _]; lia].
  - rewrite <- displayRows_iff. split.
    + intros [r Hr]. split; [exact Hpos|].
      destruct (displayRows m code _) as [u|e]; [eauto | discriminate].
    + intros [_ [u ->]]. eauto.
Qed.

(** X18. When the two listing methods throw.  [listByPrice] returns a
    result exactly when the sort direction is 1 or -1, the skip is not
    negative, every listing of the page has a category, and the page is
    empty or the display currency is USD or has a usable rate.
    [searchByPriceRange] returns a result exactly when the currency of the
    range is USD or has a usable rate, the skip is not negative and every
    listing of the page has a category: once the range is converted, the
    conversion of the prices for display cannot fail. *)
Theorem listing_queries_throw_exactly_when
  (price_leb : decimal128 -> decimal128 -> bool)
  (decimal_of_number : float -> decimal128)
  (m : Cache) (coll : list Listing) (minPrice maxPrice : float) (code : string)
  (sortOrder lim : Z) (category : option string) (pg : Z) :
  ((exists r, listByPrice price_leb m coll code sortOrder lim category pg = Found r)
   <-> (sortOrder = 1 \/ sortOrder = -1)
       /\ 0 <= (pg - 1) * lim
       /\ (let rows := shown_rows price_leb sortOrder lim pg
                         (filter (listQuery category) coll) in
           Forall (fun l => listing_category l <> None) rows
           /\ (rows = [] \/ displayable m code = true)))
  /\ ((exists r, searchByPriceRange price_leb decimal_of_number m coll minPrice
                   maxPrice code category lim pg = Found r)
      <-> displayable m code = true
          /\ 0 <= (pg - 1) * lim
          /\ (forall lo hi,
                rangeInUSD decimal_of_number m minPrice maxPrice code = Found (lo, hi) ->
                Forall (fun l => listing_category l <> None)
                  (shown_rows price_leb 1 lim pg
                     (filter (fun l => (in_range price_leb lo hi l
                                        && categoryQuery category l)%bool) coll)))).
Proof.
  split.
  - unfold listByPrice, shown_rows.
    set (docs := filter (listQuery category) coll).
    unfold sorted_by_price.
    destruct (Z.eqb_spec sortOrder 1) as [->|Hup].
    + rewrite page_of_listings_iff. cbv zeta. tauto.
    + destruct (Z.eqb_spec sortOrder (-1)) as [->|Hdown].
      * rewrite page_of_listings_iff. cbv zeta. tauto.
      * split; [intros [r Hr]; discriminate | intros [[H|H] _]; contradiction].
  - unfold searchByPriceRange, rangeInUSD, shown_rows.
    destruct (String.eqb_spec code "USD") as [->|Husd].
    + change (sorted_by_price price_leb 1 ?d) with (Found (sort_by (by_price price_leb) d)).
      rewrite page_of_listings_iff. split.
      * intros (Hskip & Hcat & _). split; [reflexivity|]. split; [exact Hskip|].
        intros lo hi [= <- <-]. exact Hcat.
      * intros (Hcode & Hskip & Hcat). split; [exact Hskip|].
        split; [apply Hcat; reflexivity | right; exact Hcode].
    + pose proof (convertToUSD_displayable m minPrice code) as Hmin.
      pose proof (convertToUSD_displayable m maxPrice code) as Hmax.
      destruct (convertToUSD m minPrice code) as [lo|c].
      * destruct (convertToUSD m maxPrice code) as [hi|c].
        -- change (sorted_by_price price_leb 1 ?d)
             with (Found (sort_by (by_price price_leb) d)).
           rewrite page_of_listings_iff. split.
           ++ intros (Hskip & Hcat & _). split; [apply Hmin; eauto|].
              split; [exact Hskip|]. intros lo' hi' [= <- <-]. exact Hcat.
           ++ intros (Hcode & Hskip & Hcat). split; [exact Hskip|].
              split; [apply Hcat; reflexivity | right; exact Hcode].
        -- split; [intros [r Hr]; discriminate|].
           intros (Hcode & _). apply Hmax in Hcode as [x Hx]. discriminate.
      * split; [intros [r Hr]; discriminate|].
        intros (Hcode & _). apply Hmin in Hcode as [x Hx]. discriminate.
Qed.

(** ** The rate the aggregation applies *)




(** ** When seeding throws *)

Lemma arrayElement_empty {A : Type} (pick : nat) :
  arrayElement (@nil A) pick = None.
Proof. unfold arrayElement. simpl. destruct pick; reflexivity. Qed.

Lemma sellerNames_empty (numSellers : Z) :
  sellerNames numSellers = [] <-> numSellers <= 0.
Proof.
  unfold sellerNames. split.
  - intros H. destruct (Z.to_nat numSellers) eqn:Hk; [lia | discriminate].
  - intros H. replace (Z.to_nat numSellers) with 0%nat by lia. reflexivity.
Qed.

(** X19. For fewer than 2^32 offers (more do not fit the array of offers),
    [seedData] throws, before it touches the collection, exactly when the
    seller count (after the default) is 2^32 or more, so that [Array.from]
    refuses the length, or when it has at least one offer to build and
    nothing to draw from: no game category in the configuration, or a
    seller count of 0 or less.  With no offer to build and fewer than 2^32
    sellers it never throws. *)
Theorem seeding_throws_exactly_when
  (sc : SeedingConfig) (draws : nat -> Draw) (numOffers numSellers : option Z) :
  js_or numOffers (defaultOfferCount sc) < 4294967296 ->
  (seedData sc draws numOffers numSellers = None
   <-> 4294967296 <= js_or numSellers (defaultSellerCount sc)
       \/ (0 < js_or numOffers (defaultOfferCount sc)
           /\ (gameCategories sc = []
               \/ js_or numSellers (defaultSellerCount sc) <= 0))).
Proof.
  intros _. unfold seedData, sellers.
  set (n := js_or numOffers (defaultOfferCount sc)).
  set (k := js_or numSellers (defaultSellerCount sc)).
  destruct (Z.leb_spec 4294967296 k) as [Hbig|Hfit].
  - split; [intros _; left; exact Hbig | reflexivity].
  - split.
    + intros Hnone. right.
      destruct (Z.ltb_spec 0 n) as [Hn|Hn].
      * split; [exact Hn|].
        destruct (gameCategories sc) as [|c cs] eqn:Hcats; [left; reflexivity | right].
        destruct (Z.leb_spec k 0) as [Hk|Hk]; [exact Hk | exfalso].
        destruct (seedLoop_total (c :: cs) (sellerNames k) draws (seq 0 (Z.to_nat n)))
          as [coll Hcoll]; [discriminate | rewrite sellerNames_empty; lia | congruence].
      * replace (Z.to_nat n) with 0%nat in Hnone by lia. discriminate.
    + intros [Hbig | [Hn Hwhy]]; [lia|].
      destruct (Z.to_nat n) as [|n'] eqn:Hnat; [lia|].
      cbn [seq seedLoop]. unfold seedOffer.
      destruct Hwhy as [-> | Hk].
      * rewrite arrayElement_empty. reflexivity.
      * destruct (arrayElement (gameCategories sc) _); [|reflexivity].
        apply sellerNames_empty in Hk. rewrite Hk, arrayElement_empty. reflexivity.
Qed.

Lemma seeding_throws_exactly_when_witness :
  seedData seeding
    (fun i => {| draw_category := i; draw_seller := i; draw_title := "Shield";
                 draw_price := 7; draw_description := "Round"; draw_rating := 3;
                 draw_stock := 2; draw_createdAt := 0; draw_tags := [] |})
    (Some 5) (Some (-3)) = None
  /\ seedData seeding
       (fun i => {| draw_category := i; draw_seller := i; draw_title := "Shield";
                    draw_price := 7; draw_description := "Round"; draw_rating := 3;
                    draw_stock := 2; draw_createdAt := 0; draw_tags := [] |})
       (Some 5) (Some 4294967296) = None.
Proof.
  split.
  - apply seeding_throws_exactly_when; [simpl; lia|].
    right. simpl. split; [lia | right; lia].
  - apply seeding_throws_exactly_when; [simpl; lia|].
    left. simpl. lia.
Defined.
